(** * Vault: the ledger of [src/vault/vault.py]

    A shallow embedding of the [Vault] class: the two SQLite tables it
    keeps ([data] and [log]), the statements it runs on them, and its
    public API ([create_account], [give], [take], [set], [transfer],
    [get_balance], [get_open_time], [get_logs], [get_ranking]).

    What the embedding takes from outside the file:
    - [time.time()] and [uuid.uuid4()] are inputs of every call (an
      [Env]); the text of a UUID is hexadecimal digits and hyphens, and
      the identifiers handed out are taken as fresh, so the key
      constraint of the [log] table never fires;
    - the connection never fails on I/O.

    Strings are Python [str] values over the characters with codes 0
    to 255.  Account names and operator labels reach two statements by
    interpolation between quotes ([create_account] and [__log]) and
    the others as bound parameters.  Interpolation is modelled by
    [Sql.literal]: a doubled quote is read by SQLite as one quote, and
    a text with a quote that is not doubled, or with a NUL character,
    makes a statement the source did not write; the outcome of such a
    statement is [Sql.Crafted], about which the embedding says nothing.

    Amounts are Python [decimal.Decimal] values.  They are modelled as
    finite decimals (sign, coefficient, exponent; no NaN, no infinity)
    with the arithmetic of the default context, which the source never
    changes: results are rounded to 28 significant digits,
    ROUND_HALF_EVEN, within the exponent limits Emax = 999999 and
    Emin = -999999; [decimal.Overflow] is trapped, underflow is not. *)

From Stdlib Require Import ZArith NArith List String Ascii Bool Lia.
From Stdlib Require Import Permutation Sorted.
From Stdlib Require Import QArith Qpower.
Import ListNotations.

Local Open Scope string_scope.
Local Open Scope list_scope.
Local Open Scope Z_scope.

(* ================================================================== *)
(** ** Python's [decimal.Decimal] (finite values, default context)     *)
(* ================================================================== *)

Module Dec.

(** [Decimal._sign], [Decimal._int] (the coefficient, kept as a number
    rather than a digit string) and [Decimal._exp].  The value is
    [(-1)^_sign * _int * 10^_exp]. *)
Record Decimal : Type := mkDecimal {
  _sign : bool;
  _int  : N;
  _exp  : Z
}.

(** [prec], [Emax] and [Emin] of the default context, and the
    exponents [Context.Etiny()] and [Context.Etop()] derived from
    them. *)
Definition prec : N := 28.
Definition Emax : Z := 999999.
Definition Emin : Z := -999999.
Definition Etiny : Z := Emin - Z.of_N prec + 1.
Definition Etop : Z := Emax - Z.of_N prec + 1.

(** Number of decimal digits of a positive coefficient. *)
Fixpoint len_aux (fuel : nat) (c : N) : N :=
  match fuel with
  | O => 0
  | S fuel' => if (c =? 0)%N then 0%N else N.succ (len_aux fuel' (c / 10))
  end.

(** [len(self._int)]: the digit string of zero is ["0"]. *)
Definition len (c : N) : N :=
  if (c =? 0)%N then 1%N else len_aux (N.to_nat (N.size c)) c.

(** [Decimal._round_half_even]: whether the kept digits [q] are
    incremented when the dropped digits are [r] out of [10^k]. *)
Definition round_half_even (q r : N) (k : N) : bool :=
  let half := (5 * 10 ^ (k - 1))%N in
  match (r ?= half)%N with
  | Gt => true
  | Eq => N.odd q
  | Lt => false
  end.

(** [Decimal._fix]: round to the context.  [None] stands for
    [decimal.Overflow], the one signal of [_fix] that the default
    context traps.
    - A zero keeps its sign and has its exponent brought between
      [Etiny] and [Emax].
    - [exp_min] is the exponent of the last of [prec] digits; above
      [Etop] the value is beyond [Emax].
    - Below [Etiny] the value is subnormal and is rounded at [Etiny]
      instead; a value all of whose digits lie below [Etiny] is
      rounded as a [1] one place below.
    - A coefficient that rounding carries to [prec + 1] digits loses
      its last zero, which may again take it beyond [Emax]. *)
Definition _fix (d : Decimal) : option Decimal :=
  if (_int d =? 0)%N then
    Some (mkDecimal (_sign d) 0 (Z.min (Z.max (_exp d) Etiny) Emax))
  else
    let exp_min := Z.of_N (len (_int d)) + _exp d - Z.of_N prec in
    if Etop <? exp_min then None
    else
      let exp_min := Z.max exp_min Etiny in
      if _exp d <? exp_min then
        let digits := Z.of_N (len (_int d)) + _exp d - exp_min in
        let self := if digits <? 0
                    then mkDecimal (_sign d) 1 (exp_min - 1) else d in
        let k := Z.to_N (exp_min - _exp self) in
        let q := (_int self / 10 ^ k)%N in
        let r := (_int self mod 10 ^ k)%N in
        let coeff := if round_half_even q r k then N.succ q else q in
        if (prec <? len coeff)%N then
          if Etop <? exp_min + 1 then None
          else Some (mkDecimal (_sign d) (coeff / 10) (exp_min + 1))
        else Some (mkDecimal (_sign d) coeff exp_min)
      else Some d.

(** The coefficient with its sign. *)
Definition signed (d : Decimal) : Z :=
  if _sign d then - Z.of_N (_int d) else Z.of_N (_int d).

(** The signed coefficient of [d] rewritten at exponent [m <= _exp d]. *)
Definition aligned (m : Z) (d : Decimal) : Z :=
  signed d * 10 ^ (_exp d - m).

(** The exact sum of [a] and [b], before rounding: the exponent is the
    smaller of the two; a zero sum is negative only when both operands
    are. *)
Definition exact_add (a b : Decimal) : Decimal :=
  let exp := Z.min (_exp a) (_exp b) in
  let s := aligned exp a + aligned exp b in
  if s =? 0 then mkDecimal (_sign a && _sign b) 0 exp
  else mkDecimal (s <? 0) (Z.to_N (Z.abs s)) exp.

(** [Decimal.__add__]. *)
Definition __add__ (a b : Decimal) : option Decimal := _fix (exact_add a b).

Definition copy_negate (a : Decimal) : Decimal :=
  mkDecimal (negb (_sign a)) (_int a) (_exp a).

Definition copy_abs (a : Decimal) : Decimal :=
  mkDecimal false (_int a) (_exp a).

(** [Decimal.__sub__]: [self.__add__(other.copy_negate())]. *)
Definition __sub__ (a b : Decimal) : option Decimal :=
  __add__ a (copy_negate b).

(** [Decimal.__neg__]: the negation of a zero is a positive zero. *)
Definition __neg__ (a : Decimal) : option Decimal :=
  _fix (if (_int a =? 0)%N then copy_abs a else copy_negate a).

(** [Decimal._cmp]: comparison by value. *)
Definition _cmp (a b : Decimal) : comparison :=
  let m := Z.min (_exp a) (_exp b) in
  aligned m a ?= aligned m b.

Definition __eq__ (a b : Decimal) : bool :=
  match _cmp a b with Eq => true | _ => false end.
Definition __lt__ (a b : Decimal) : bool :=
  match _cmp a b with Lt => true | _ => false end.
Definition __le__ (a b : Decimal) : bool :=
  match _cmp a b with Gt => false | _ => true end.
Definition __gt__ (a b : Decimal) : bool :=
  match _cmp a b with Gt => true | _ => false end.
Definition __ge__ (a b : Decimal) : bool :=
  match _cmp a b with Lt => false | _ => true end.

(** [Decimal(n)] for an integer [n]. *)
Definition of_int (n : Z) : Decimal :=
  mkDecimal (n <? 0) (Z.to_N (Z.abs n)) 0.

(** The literal [0] the source compares amounts with. *)
Definition zero : Decimal := of_int 0.

(** [Decimal('0.00')], the balance of a new account. *)
Definition zero_00 : Decimal := mkDecimal false 0 (-2).

(** The value of a decimal, as a rational number. *)
Definition value (d : Decimal) : Q :=
  (inject_Z (signed d) * (10 # 1) ^ (_exp d))%Q.

(** Two outcomes of an operation agree: both are the trap, or both are
    decimals of one value. *)
Definition same_value (x y : option Decimal) : Prop :=
  match x, y with
  | Some a, Some b => __eq__ a b = true
  | None, None => True
  | _, _ => False
  end.

End Dec.
Export Dec.

Notation "a +d b" := (__add__ a b) (at level 50, left associativity).
Notation "a -d b" := (__sub__ a b) (at level 50, left associativity).
Notation "a ==d b" := (__eq__ a b) (at level 68, no associativity).
Notation "a <d b" := (__lt__ a b) (at level 68, no associativity).
Notation "a <=d b" := (__le__ a b) (at level 68, no associativity).
Notation "a >d b" := (__gt__ a b) (at level 68, no associativity).

Notation "a >=d b" := (__ge__ a b) (at level 68, no associativity).

(* ================================================================== *)
(** ** The Python containers the source uses                           *)
(* ================================================================== *)

Module Py.

Section Dict.
Context {V : Type}.

(** A [dict] keyed by strings: the items in insertion order, every
    key once. *)
Definition dict : Type := list (string * V).

(** [d[k] = v]: a key already present keeps its place. *)
Fixpoint setitem (k : string) (v : V) (d : dict) : dict :=
  match d with
  | [] => [(k, v)]
  | (k', v') :: d' =>
      if String.eqb k' k then (k, v) :: d' else (k', v') :: setitem k v d'
  end.

(** [dict(items)] and the dict comprehension [{k: v for k, v in items}]. *)
Definition of_items (items : list (string * V)) : dict :=
  fold_left (fun d kv => setitem (fst kv) (snd kv) d) items [].

(** [d[k]]; [None] stands for [KeyError]. *)
Fixpoint getitem (k : string) (d : dict) : option V :=
  match d with
  | [] => None
  | (k', v) :: d' => if String.eqb k' k then Some v else getitem k d'
  end.

(** [k in d]. *)
Definition contains (k : string) (d : dict) : bool :=
  existsb (fun kv => String.eqb (fst kv) k) d.

(** The binding of [k] that a dict built from [items] ends up with:
    the last one in [items]. *)
Fixpoint assoc_last (k : string) (items : list (string * V)) : option V :=
  match items with
  | [] => None
  | (k', v) :: items' =>
      match assoc_last k items' with
      | Some v' => Some v'
      | None => if String.eqb k' k then Some v else None
      end
  end.

(** [d.keys()]: a view of the same dict, so [k in d.keys()] is
    [k in d]. *)
Definition keys_view (d : dict) : dict := d.
End Dict.

Arguments dict : clear implicits.

Section Sorted.
Context {A : Type} (key : A -> Decimal).

(** One step of a stable ascending sort that, like [list.sort], only
    asks [<] of the keys: [x], which stood before every element of
    [l], goes in front of the first element whose key is not smaller
    than its own. *)
Fixpoint insert (x : A) (l : list A) : list A :=
  match l with
  | [] => [x]
  | y :: l' => if key y <d key x then y :: insert x l' else x :: y :: l'
  end.

Definition sort (l : list A) : list A := fold_right insert [] l.

(** [sorted(l, key=key, reverse=reverse)].  CPython obtains the
    reversed order, still stable, by reversing the list, sorting it
    ascending and reversing the result. *)
Definition sorted (reverse : bool) (l : list A) : list A :=
  if reverse then rev (sort (rev l)) else sort l.
End Sorted.

End Py.

(* ================================================================== *)
(** ** The SQLite database: tables [data] and [log]                    *)
(* ================================================================== *)

Module Sql.

(** A row of [data(name, time, balance)].  [balance] is a text column
    that holds [str(balance)]; reading it back with [Decimal(...)]
    gives the same decimal, so the row keeps the decimal itself. *)
Record data_row : Type := mkData {
  data_name    : string;
  data_time    : Z;
  data_balance : Decimal
}.

(** A row of [log(id, time, debit, credit, amount)]. *)
Record log_row : Type := mkLog {
  log_id     : string;
  log_time   : Z;
  log_debit  : string;
  log_credit : string;
  log_amount : Decimal
}.

(** Both tables, each in rowid order, the order a full scan returns. *)
Record DB : Type := mkDB {
  data : list data_row;
  log  : list log_row
}.

(** The database [__connect] creates. *)
Definition empty : DB := mkDB [] [].

(** What a call can raise.  [IntegrityError] is [sqlite3.IntegrityError],
    [KeyError] the failed lookup in a Python dict, [Overflow]
    [decimal.Overflow]. *)
Inductive exn : Type :=
  | AccountNotExistsError
  | AmountIllegalError
  | InsufficientBalanceError
  | IntegrityError
  | KeyError
  | Overflow.

(** How a computation ends.  [Crafted]: SQLite was handed a text that
    is not the statement the source spells out, because a string
    interpolated between quotes holds a quote that is not doubled, or
    a NUL character.  What SQLite does with such a text depends on the
    text (a syntax error, the insertion of another row, the rewriting
    of an existing one), and the embedding stops there. *)
Inductive result (A : Type) : Type :=
  | Ok (a : A)
  | Raised (e : exn)
  | Crafted.
Arguments Ok {A} a.
Arguments Raised {A} e.
Arguments Crafted {A}.

(** A computation on the database.  Every statement is committed as it
    is executed, so a computation that raises still hands back the
    database it had reached; with [Crafted] comes the database the
    crafted text was handed to. *)
Definition M (A : Type) : Type := DB -> result A * DB.

Definition ret {A} (a : A) : M A := fun db => (Ok a, db).
Definition raise {A} (e : exn) : M A := fun db => (Raised e, db).
Definition bind {A B} (m : M A) (k : A -> M B) : M B :=
  fun db =>
    match m db with
    | (Ok a, db') => k a db'
    | (Raised e, db') => (Raised e, db')
    | (Crafted, db') => (Crafted, db')
    end.

Definition quote : ascii := "'"%char.
Definition nul : ascii := "000"%char.

(** The string that the literal ['s'] of a statement denotes, where
    [s] was put between the quotes by interpolation: SQLite reads two
    quotes in a row as one quote and every other character as itself.
    [None]: a quote of [s] that is not doubled ends the literal inside
    [s], or [s] holds a NUL; the text is then no longer the statement
    of the source. *)
Fixpoint literal (s : string) : option string :=
  match s with
  | EmptyString => Some EmptyString
  | String c s' =>
      if Ascii.eqb c quote then
        match s' with
        | String c' s'' =>
            if Ascii.eqb c' quote
            then option_map (String quote) (literal s'')
            else None
        | EmptyString => None
        end
      else if Ascii.eqb c nul then None
      else option_map (String c) (literal s')
  end.

(** A string without quote and without NUL: as a literal it denotes
    itself. *)
Fixpoint plain (s : string) : bool :=
  match s with
  | EmptyString => true
  | String c s' =>
      negb (Ascii.eqb c quote) && negb (Ascii.eqb c nul) && plain s'
  end.

(** [check ( balance>=0 )] of table [data].  The column has TEXT
    affinity, so SQLite compares the stored text with the text ['0']:
    [str(balance)] passes unless it starts with ['-'], that is unless
    the sign of the decimal is set. *)
Definition check_balance (b : Decimal) : bool := negb (_sign b).

Definition has_name (n : string) (r : data_row) : bool :=
  String.eqb (data_name r) n.

(** The rows with [balance] set to [b] where [name] is [n]. *)
Definition with_balance (n : string) (b : Decimal) (rows : list data_row)
    : list data_row :=
  map (fun r => if has_name n r
                then mkData (data_name r) (data_time r) b
                else r) rows.

(** [update data set balance=? where name=?], both values bound: the
    check constraint is tested on every row the statement rewrites; a
    violation aborts the statement and leaves the table as it was; a
    statement that matches no row writes nothing and succeeds. *)
Definition update_balance (b : Decimal) (n : string) : M unit :=
  fun db =>
    if existsb (has_name n) (data db) then
      if check_balance b then
        (Ok tt, mkDB (with_balance n b (data db)) (log db))
      else (Raised IntegrityError, db)
    else (Ok tt, db).

(** [insert into data values('n', t, 'b')], with [n] interpolated
    between the quotes: the name of the new row is what the literal
    denotes, and it is the primary key. *)
Definition insert_data (n : string) (t : Z) (b : Decimal) : M unit :=
  fun db =>
    match literal n with
    | None => (Crafted, db)
    | Some name =>
        if existsb (has_name name) (data db) then (Raised IntegrityError, db)
        else if check_balance b then
          (Ok tt, mkDB (data db ++ [mkData name t b]) (log db))
        else (Raised IntegrityError, db)
    end.

(** [insert into log values('i', t, 'debit', 'credit', 'amount')], with
    [debit] and [credit] interpolated between the quotes; [i] is the
    text of a UUID and [amount] that of a decimal, neither of which
    holds a quote. *)
Definition insert_log (i : string) (t : Z) (debit credit : string)
    (amount : Decimal) : M unit :=
  fun db =>
    match literal debit, literal credit with
    | Some d, Some c =>
        (Ok tt, mkDB (data db) (log db ++ [mkLog i t d c amount]))
    | _, _ => (Crafted, db)
    end.

(** [select * from data] and [select * from log]. *)
Definition select_data : M (list data_row) := fun db => (Ok (data db), db).
Definition select_log : M (list log_row) := fun db => (Ok (log db), db).

End Sql.
Export Sql.

Notation "x <- c ;; k" := (bind c (fun x => k))
  (at level 61, c at next level, right associativity).
Notation "c ;;; k" := (bind c (fun _ => k))
  (at level 61, right associativity).

(* ================================================================== *)
(** ** The class [Vault]                                               *)
(* ================================================================== *)

Module Vault.

(** What a call reads from the outside: [int(time.time())] and
    [uuid.uuid4()]. *)
Record Env : Type := mkEnv {
  now   : Z;
  uuid4 : string
}.

(** The value [__get_all_data] maps a name to:
    [{'time': t, 'balance': Decimal(balance)}]. *)
Record account : Type := mkAccount {
  acc_time    : Z;
  acc_balance : Decimal
}.

(** The default value of the parameter [operator]. *)
Definition Admin : string := "Admin".

(** *** Data *)

Definition __get_all_data : M (Py.dict account) :=
  rows <- select_data ;;
  ret (Py.of_items
         (map (fun r => (data_name r, mkAccount (data_time r) (data_balance r)))
              rows)).

(** What [__get_all_data()[name]] finds in a database: the account that
    the dict built from the rows binds [name] to, if any. *)
Definition lookup (db : DB) (name : string) : option account :=
  Py.assoc_last name
    (map (fun r => (data_name r, mkAccount (data_time r) (data_balance r)))
         (data db)).

Definition __get_balance (name : string) : M Decimal :=
  d <- __get_all_data ;;
  match Py.getitem name d with
  | Some a => ret (acc_balance a)
  | None => raise KeyError
  end.

Definition __get_open_time (name : string) : M Z :=
  d <- __get_all_data ;;
  match Py.getitem name d with
  | Some a => ret (acc_time a)
  | None => raise KeyError
  end.

Definition __get_log : M (list log_row) := select_log.

Definition __set_balance (name : string) (balance : Decimal) : M unit :=
  update_balance balance name.

Definition __log (env : Env) (debit credit : string) (amount : Decimal)
    : M unit :=
  insert_log (uuid4 env) (now env) debit credit amount.

(** An arithmetic operation under the default context: the trapped
    signal becomes the exception [decimal.Overflow]. *)
Definition arith {A : Type} (r : option A) : M A :=
  match r with
  | Some a => ret a
  | None => raise Overflow
  end.

(** *** API *)

Definition create_account (env : Env) (name : string) : M unit :=
  d <- __get_all_data ;;
  if negb (Py.contains name (Py.keys_view d))
  then insert_data name (now env) zero_00
  else ret tt.

Definition is_account (name : string) : M bool :=
  d <- __get_all_data ;;
  ret (Py.contains name d).

Definition get_open_time (name : string) : M Z :=
  ok <- is_account name ;;
  if negb ok then raise AccountNotExistsError
  else __get_open_time name.

Definition get_balance (name : string) : M Decimal :=
  ok <- is_account name ;;
  if negb ok then raise AccountNotExistsError
  else __get_balance name.

Definition get_logs : M (list log_row) := __get_log.

Definition get_ranking : M (Py.dict Decimal) :=
  d <- __get_all_data ;;
  let data := Py.of_items (map (fun ab => (fst ab, acc_balance (snd ab))) d) in
  ret (Py.of_items (Py.sorted snd true data)).

Definition give (env : Env) (name : string) (amount : Decimal)
    (operator : string) : M unit :=
  ok <- is_account name ;;
  if negb ok then raise AccountNotExistsError
  else if amount <=d zero then raise AmountIllegalError
  else
    balance_old <- __get_balance name ;;
    balance_new <- arith (balance_old +d amount) ;;
    __set_balance name balance_new ;;;
    __log env operator name amount.

Definition take (env : Env) (name : string) (amount : Decimal)
    (operator : string) : M unit :=
  ok <- is_account name ;;
  if negb ok then raise AccountNotExistsError
  else if amount <=d zero then raise AmountIllegalError
  else
    balance <- __get_balance name ;;
    if amount >d balance then raise InsufficientBalanceError
    else
      balance_old <- __get_balance name ;;
      balance_new <- arith (balance_old -d amount) ;;
      __set_balance name balance_new ;;;
      minus_amount <- arith (__neg__ amount) ;;
      __log env operator name minus_amount.

Definition set (env : Env) (name : string) (amount : Decimal)
    (operator : string) : M unit :=
  ok <- is_account name ;;
  if negb ok then raise AccountNotExistsError
  else if amount <d zero then raise AmountIllegalError
  else
    balance_old <- __get_balance name ;;
    __set_balance name amount ;;;
    delta <- arith (amount -d balance_old) ;;
    __log env operator name delta.

Definition transfer (env : Env) (debit credit : string) (amount : Decimal)
    : M unit :=
  debit_ok <- is_account debit ;;
  both_ok <- (if debit_ok then is_account credit else ret false) ;;
  if negb both_ok then raise AccountNotExistsError
  else if amount <=d zero then raise AmountIllegalError
  else
    balance <- __get_balance debit ;;
    if amount >d balance then raise InsufficientBalanceError
    else
      debit_old <- get_balance debit ;;
      credit_old <- get_balance credit ;;
      debit_new <- arith (debit_old -d amount) ;;
      credit_new <- arith (credit_old +d amount) ;;
      __set_balance debit debit_new ;;;
      __set_balance credit credit_new ;;;
      __log env debit credit amount.

(** *** Histories of calls *)

(** The constraints table [data] is declared with: [name] is a key, and
    every [balance] passes the check. *)
Definition well_formed (db : DB) : Prop :=
  NoDup (map data_name (data db)) /\
  Forall (fun r => check_balance (data_balance r) = true) (data db).

(** A call of one of the mutating methods of the API. *)
Inductive call : Type :=
  | CreateAccount (name : string)
  | Give (name : string) (amount : Decimal) (operator : string)
  | Take (name : string) (amount : Decimal) (operator : string)
  | Set_ (name : string) (amount : Decimal) (operator : string)
  | Transfer (debit credit : string) (amount : Decimal).

Definition run (env : Env) (c : call) : M unit :=
  match c with
  | CreateAccount name => create_account env name
  | Give name amount operator => give env name amount operator
  | Take name amount operator => take env name amount operator
  | Set_ name amount operator => set env name amount operator
  | Transfer debit credit amount => transfer env debit credit amount
  end.

(** The databases a vault can hold: the one [__connect] creates, and
    whatever a call leaves behind, whether it returned or raised.  Of
    a call that hands SQLite a crafted text, the database is the one
    the text was handed to: what the text then does to it is no part
    of the embedding. *)
Inductive reachable : DB -> Prop :=
  | reachable_empty : reachable empty
  | reachable_run : forall db env c,
      reachable db -> reachable (snd (run env c db)).

(** Running a list of calls, each with its own clock and identifier,
    going on after a call that raised (the caller caught it). *)
Fixpoint run_all (cs : list (Env * call)) (db : DB) : DB :=
  match cs with
  | [] => db
  | (env, c) :: cs' => run_all cs' (snd (run env c db))
  end.

(** *** Example histories *)

Definition env_at (t : Z) (i : string) : Env := mkEnv t i.

Definition env9 : Env := env_at 9 "id9".

(** One account ["a"] holding [0.5]. *)
Definition db_half : DB :=
  run_all [ (env_at 1 "id1", CreateAccount "a");
            (env_at 2 "id2", Set_ "a" (mkDecimal false 5 (-1)) Admin) ]
          empty.

(** Accounts ["p1"] holding [100] and ["p2"] holding [0.5]. *)
Definition db_pair : DB :=
  run_all [ (env_at 1 "id1", CreateAccount "p1");
            (env_at 2 "id2", CreateAccount "p2");
            (env_at 3 "id3", Give "p1" (of_int 100) Admin);
            (env_at 4 "id4", Give "p2" (mkDecimal false 5 (-1)) Admin) ]
          empty.

(** [Decimal('1E+28')]. *)
Definition dec_1E28 : Decimal := mkDecimal false 1 28.

(** Accounts ["p1"] holding [10] and ["p2"] holding [1E+28]. *)
Definition db_rich : DB :=
  run_all [ (env_at 1 "id1", CreateAccount "p1");
            (env_at 2 "id2", CreateAccount "p2");
            (env_at 3 "id3", Give "p1" (of_int 10) Admin);
            (env_at 4 "id4", Set_ "p2" dec_1E28 Admin) ]
          empty.

(** One account ["a"] holding [30]. *)
Definition db_thirty : DB :=
  run_all [ (env_at 1 "id1", CreateAccount "a");
            (env_at 2 "id2", Give "a" (of_int 30) Admin) ]
          empty.

(** Accounts ["a"], ["b"], ["c"], created in this order, holding [10],
    [10.0] and [5]. *)
Definition db_rank : DB :=
  run_all [ (env_at 1 "id1", CreateAccount "a");
            (env_at 2 "id2", CreateAccount "b");
            (env_at 3 "id3", CreateAccount "c");
            (env_at 4 "id4", Set_ "c" (of_int 5) Admin);
            (env_at 5 "id5", Set_ "b" (mkDecimal false 100 (-1)) Admin);
            (env_at 6 "id6", Set_ "a" (of_int 10) Admin) ]
          empty.

(** A history with every kind of call: ["p1"] ends with [75.5] and
    ["p2"] with [25]. *)
Definition history_shop : list (Env * call) :=
  [ (env_at 1 "id1", CreateAccount "p1");
    (env_at 2 "id2", CreateAccount "p2");
    (env_at 3 "id3", Give "p1" (of_int 100) Admin);
    (env_at 4 "id4", Transfer "p1" "p2" (of_int 40));
    (env_at 5 "id5", Take "p2" (of_int 15) Admin);
    (env_at 6 "id6", Set_ "p1" (mkDecimal false 755 (-1)) Admin) ].

(** One account ["p"] holding [1E+999971], near the largest exponent
    of the context. *)
Definition db_top : DB := mkDB [mkData "p" 1 (mkDecimal false 1 999971)] [].

(** Twenty-nine nines at exponent [999971]. *)
Definition dec_nines : Decimal :=
  mkDecimal false 99999999999999999999999999999 999971.


(** *** Vocabulary of the specification *)

(** The accounts whose balance a call may write.  [create_account]
    writes no balance of an account that exists. *)
Definition touched (c : call) : list string :=
  match c with
  | CreateAccount _ => []
  | Give name _ _ | Take name _ _ | Set_ name _ _ => [name]
  | Transfer debit credit _ => [debit; credit]
  end.

(** The three errors with which the API rejects a call. *)
Definition is_rejection (e : exn) : bool :=
  match e with
  | AccountNotExistsError | AmountIllegalError | InsufficientBalanceError =>
      true
  | IntegrityError | KeyError | Overflow => false
  end.


Definition spec_exists (db : DB) (name : string) : bool :=
  match fst (is_account name db) with
  | Ok b => b
  | _ => false
  end.



(** The accounts with their balances in the order of the table, which
    is the order they were created in: [create_account] appends. *)
Definition accounts_by_creation (db : DB) : list (string * Decimal) :=
  map (fun r => (data_name r, data_balance r)) (data db).

(** [Decimal('-0')] and its like: zero with the sign set. *)
Definition negative_zero (d : Decimal) : bool :=
  _sign d && (_int d =? 0)%N.

(** The entry [__log] appends for the labels [debit] and [credit] and
    an amount that was computed. *)
Definition entry (env : Env) (debit credit : string)
    (amount : option Decimal) : list log_row :=
  match literal debit, literal credit, amount with
  | Some d, Some c, Some a => [mkLog (uuid4 env) (now env) d c a]
  | _, _, _ => []
  end.

(** What a call appends to the log when it returns. *)
Definition entry_of (env : Env) (c : call) (db : DB) : list log_row :=
  match c with
  | CreateAccount _ => []
  | Give name amount operator => entry env operator name (Some amount)
  | Take name amount operator => entry env operator name (__neg__ amount)
  | Set_ name amount operator =>
      match fst (get_balance name db) with
      | Ok balance_old => entry env operator name (amount -d balance_old)
      | _ => []
      end
  | Transfer debit credit amount => entry env debit credit (Some amount)
  end.

(** A decimal that the context leaves as it is: it has at most [prec]
    significant digits, lies within the exponent limits, and [_fix]
    returns a decimal of the same value. *)
Definition representableb (d : Decimal) : bool :=
  match _fix d with
  | Some r => r ==d d
  | None => false
  end.

Definition representable (d : Decimal) : Prop := representableb d = true.

(** [set] as the specification describes it: the call returns, the
    balance is the amount, and the log has grown by one entry, from
    the operator to the account, whose amount is the amount less the
    old balance. *)
Definition set_logs_delta (env : Env) (name : string) (amount : Decimal)
    (operator : string) (db : DB) : Prop :=
  let db' := snd (set env name amount operator db) in
  fst (set env name amount operator db) = Ok tt /\
  fst (get_balance name db') = Ok amount /\
  exists old delta,
    fst (get_balance name db) = Ok old /\
    log db' = log db ++
      [mkLog (uuid4 env) (now env) operator name delta] /\
    (value delta == value amount - value old)%Q.



End Vault.
Import Vault.
(* ================================================================== *)
(** ** Histories and the log                                           *)
(* ================================================================== *)

Module History.

(** What a history appends to the log: the entries of the calls that
    return, in the order of the calls. *)
Fixpoint logged (cs : list (Env * call)) (db : DB) : list log_row :=
  match cs with
  | [] => []
  | (env, c) :: cs' =>
      match fst (run env c db) with
      | Ok _ => entry_of env c db
      | _ => []
      end ++ logged cs' (snd (run env c db))
  end.

(** No call of the history hands SQLite a crafted text. *)
Fixpoint modelled (cs : list (Env * call)) (db : DB) : bool :=
  match cs with
  | [] => true
  | (env, c) :: cs' =>
      match fst (run env c db) with
      | Crafted => false
      | _ => modelled cs' (snd (run env c db))
      end
  end.

(** The names a history creates accounts for. *)
Fixpoint created (cs : list (Env * call)) : list string :=
  match cs with
  | [] => []
  | (_, CreateAccount name) :: cs' => name :: created cs'
  | _ :: cs' => created cs'
  end.

(** The operator labels a history uses in [give], [take] and [set]. *)
Fixpoint operators (cs : list (Env * call)) : list string :=
  match cs with
  | [] => []
  | (_, Give _ _ operator) :: cs'
  | (_, Take _ _ operator) :: cs'
  | (_, Set_ _ _ operator) :: cs' => operator :: operators cs'
  | _ :: cs' => operators cs'
  end.

(** No operator label of the history is the name of an account of the
    history: a log entry does not tell an operator from an account. *)
Definition labels_apart (cs : list (Env * call)) : bool :=
  forallb (fun operator =>
             negb (existsb (String.eqb operator) (created cs)))
          (operators cs).

(** The names and labels of a call hold no quote and no NUL, so that
    the log names accounts as the table does. *)
Definition plain_call (c : call) : bool :=
  match c with
  | CreateAccount name => plain name
  | Give name _ operator | Take name _ operator | Set_ name _ operator =>
      plain name && plain operator
  | Transfer debit credit _ => plain debit && plain credit
  end.

(** What a call computes, if it gets to compute, is not rounded: the
    new balances, the amount [set] logs and the amount [take] logs;
    and the call is no transfer from an account to itself. *)
Definition exact_call (c : call) (db : DB) : bool :=
  match c with
  | CreateAccount _ => true
  | Give name amount _ =>
      match fst (get_balance name db) with
      | Ok b => representableb (exact_add b amount)
      | _ => true
      end
  | Take name amount _ =>
      match fst (get_balance name db) with
      | Ok b => representableb (exact_add b (copy_negate amount)) &&
                representableb amount
      | _ => true
      end
  | Set_ name amount _ =>
      match fst (get_balance name db) with
      | Ok b => representableb (exact_add amount (copy_negate b))
      | _ => true
      end
  | Transfer debit credit amount =>
      negb (String.eqb debit credit) &&
      match fst (get_balance debit db), fst (get_balance credit db) with
      | Ok d, Ok c => representableb (exact_add d (copy_negate amount)) &&
                      representableb (exact_add c amount)
      | _, _ => true
      end
  end.

Fixpoint exact_history (cs : list (Env * call)) (db : DB) : bool :=
  match cs with
  | [] => true
  | (env, c) :: cs' =>
      plain_call c && exact_call c db &&
      exact_history cs' (snd (run env c db))
  end.

(** What a log entry says of account [n]: its amount came in if [n] is
    the credit side, and went out if [n] is the debit side. *)
Definition movement (n : string) (e : log_row) : Q :=
  ((if String.eqb (log_credit e) n then value (log_amount e) else 0) -
   (if String.eqb (log_debit e) n then value (log_amount e) else 0))%Q.

(** The balance the log accounts for. *)
Fixpoint net (l : list log_row) (n : string) : Q :=
  match l with
  | [] => 0%Q
  | e :: l' => (movement n e + net l' n)%Q
  end.

(** The log accounts for the database: with [C] the names accounts
    may have and [L] the labels operators may have, every account is in
    [C], every entry credits an account and debits an account or a
    label of [L], and every balance is the net of its entries. *)
Definition accounted (L C : list string) (db : DB) : Prop :=
  (forall n, In n (map data_name (data db)) -> In n C) /\
  (forall e, In e (log db) ->
     In (log_credit e) (map data_name (data db)) /\
     (In (log_debit e) (map data_name (data db)) \/ In (log_debit e) L)) /\
  (forall n acc, lookup db n = Some acc ->
     (value (acc_balance acc) == net (log db) n)%Q).

End History.
Import History.

(* ================================================================== *)
(** ** Decimal arithmetic                                              *)
(* ================================================================== *)

Section DecimalFacts.

Lemma pow10_pos (k : Z) : 0 <= k -> 0 < 10 ^ k.
Proof. intros; apply Z.pow_pos_nonneg; lia. Qed.

Lemma aligned_rescale (m m' : Z) (d : Decimal) :
  m <= m' -> m' <= _exp d ->
  aligned m d = aligned m' d * 10 ^ (m' - m).
Proof.
  intros Hm Hm'. unfold aligned.
  rewrite <- Z.mul_assoc, <- Z.pow_add_r by lia.
  do 2 f_equal. lia.
Qed.

(** Two decimals compare as their coefficients do at any exponent
    below both. *)
Lemma cmp_at (m : Z) (a b : Decimal) :
  m <= _exp a -> m <= _exp b ->
  _cmp a b = (aligned m a ?= aligned m b).
Proof.
  intros Ha Hb. unfold _cmp.
  set (m' := Z.min (_exp a) (_exp b)).
  rewrite (aligned_rescale m m' a), (aligned_rescale m m' b) by lia.
  apply Zmult_compare_compat_r.
  assert (0 < 10 ^ (m' - m)) by (apply pow10_pos; lia). lia.
Qed.

Lemma signed_exact (s : Z) (sg : bool) (e : Z) :
  signed (if s =? 0 then mkDecimal sg 0 e
          else mkDecimal (s <? 0) (Z.to_N (Z.abs s)) e) = s.
Proof.
  destruct (Z.eqb_spec s 0) as [->|Hs].
  - unfold signed; simpl. destruct sg; reflexivity.
  - unfold signed; simpl. destruct (Z.ltb_spec s 0); lia.
Qed.

Lemma exact_add_exp (a b : Decimal) :
  _exp (exact_add a b) = Z.min (_exp a) (_exp b).
Proof. unfold exact_add. destruct (_ =? 0); reflexivity. Qed.

Lemma exact_add_signed (a b : Decimal) :
  signed (exact_add a b) =
  aligned (Z.min (_exp a) (_exp b)) a + aligned (Z.min (_exp a) (_exp b)) b.
Proof. unfold exact_add. apply signed_exact. Qed.

(** [exact_add] is the sum, at whatever exponent it is read. *)
Lemma exact_add_aligned (m : Z) (a b : Decimal) :
  m <= _exp a -> m <= _exp b ->
  aligned m (exact_add a b) = aligned m a + aligned m b.
Proof.
  intros Ha Hb.
  set (m' := Z.min (_exp a) (_exp b)).
  rewrite (aligned_rescale m m' a), (aligned_rescale m m' b) by lia.
  unfold aligned at 1. rewrite exact_add_signed, exact_add_exp. fold m'. lia.
Qed.

Lemma copy_negate_aligned (m : Z) (a : Decimal) :
  aligned m (copy_negate a) = - aligned m a.
Proof.
  unfold aligned, copy_negate, signed; simpl. destruct (_sign a); simpl; lia.
Qed.

Lemma cmp_zero (a : Decimal) : _cmp a zero = (signed a ?= 0).
Proof.
  rewrite (cmp_at (Z.min (_exp a) 0)) by (simpl; lia).
  unfold aligned at 2. simpl (signed zero). rewrite Z.mul_0_l.
  unfold aligned.
  assert (H : 0 < 10 ^ (_exp a - Z.min (_exp a) 0)) by (apply pow10_pos; lia).
  destruct (Z.compare_spec (signed a) 0) as [E|E|E].
  - rewrite E. reflexivity.
  - apply Z.compare_lt_iff. nia.
  - apply Z.compare_gt_iff. nia.
Qed.

Lemma lt_zero_sign (a : Decimal) : a <d zero = true -> _sign a = true.
Proof.
  unfold __lt__. rewrite cmp_zero. unfold signed.
  destruct (_sign a); [reflexivity|].
  destruct (Z.compare_spec (Z.of_N (_int a)) 0); try discriminate; lia.
Qed.

Lemma le_zero_false (a : Decimal) :
  a <=d zero = false -> _sign a = false /\ (0 < _int a)%N.
Proof.
  unfold __le__. rewrite cmp_zero. unfold signed.
  destruct (_sign a).
  - destruct (Z.compare_spec (- Z.of_N (_int a)) 0); try discriminate; lia.
  - destruct (Z.compare_spec (Z.of_N (_int a)) 0); try discriminate; lia.
Qed.

Lemma unsigned_ge_zero (a : Decimal) : _sign a = false -> a >=d zero = true.
Proof.
  intros H. unfold __ge__. rewrite cmp_zero. unfold signed. rewrite H.
  destruct (Z.compare_spec (Z.of_N (_int a)) 0); try reflexivity; lia.
Qed.

(** *** Signs *)

Lemma fix_sign (d r : Decimal) : _fix d = Some r -> _sign r = _sign d.
Proof.
  unfold _fix.
  repeat match goal with |- context [if ?c then _ else _] => destruct c end;
    intros H; try discriminate; injection H as <-; reflexivity.
Qed.

Lemma signed_unsigned (d : Decimal) :
  _sign d = false -> signed d = Z.of_N (_int d).
Proof. unfold signed. now intros ->. Qed.

Lemma aligned_nonneg (m : Z) (d : Decimal) :
  _sign d = false -> 0 <= aligned m d.
Proof.
  intros H. unfold aligned. rewrite (signed_unsigned _ H).
  apply Z.mul_nonneg_nonneg; [lia|]. apply Z.pow_nonneg. lia.
Qed.

Lemma exact_add_sign (a b : Decimal) :
  0 <= signed (exact_add a b) -> _sign a && _sign b = false ->
  _sign (exact_add a b) = false.
Proof.
  rewrite exact_add_signed. unfold exact_add. intros Hs Hab.
  destruct (Z.eqb_spec (aligned (Z.min (_exp a) (_exp b)) a +
                        aligned (Z.min (_exp a) (_exp b)) b) 0); simpl.
  - exact Hab.
  - apply Z.ltb_ge. exact Hs.
Qed.

Lemma gt_zero (a : Decimal) :
  a >d zero = true -> _sign a = false /\ (0 < _int a)%N.
Proof.
  intros H. apply le_zero_false.
  unfold __gt__ in H. unfold __le__. destruct (_cmp a zero); congruence.
Qed.

(** Sums of unsigned decimals, and differences that stay above zero,
    are unsigned: they pass the check of the table. *)
Lemma add_unsigned (b a r : Decimal) :
  _sign b = false -> _sign a = false -> b +d a = Some r -> _sign r = false.
Proof.
  intros Hb Ha Hr. unfold __add__ in Hr. rewrite (fix_sign _ _ Hr).
  apply exact_add_sign; [|now rewrite Hb].
  rewrite exact_add_signed.
  pose proof (aligned_nonneg (Z.min (_exp b) (_exp a)) b Hb).
  pose proof (aligned_nonneg (Z.min (_exp b) (_exp a)) a Ha). lia.
Qed.

Lemma sub_unsigned (b a r : Decimal) :
  _sign b = false -> a <=d b = true -> b -d a = Some r -> _sign r = false.
Proof.
  intros Hb Hle Hr. unfold __sub__, __add__ in Hr. rewrite (fix_sign _ _ Hr).
  apply exact_add_sign; [|now rewrite Hb].
  rewrite exact_add_signed, copy_negate_aligned.
  simpl (_exp (copy_negate a)).
  set (m := Z.min (_exp b) (_exp a)).
  unfold __le__ in Hle. rewrite (cmp_at m) in Hle by (unfold m; lia).
  destruct (Z.compare_spec (aligned m a) (aligned m b));
    try discriminate; lia.
Qed.

End DecimalFacts.

(* ================================================================== *)
(** ** The order of decimals                                           *)
(* ================================================================== *)

Section OrderFacts.


Lemma eq_at (m : Z) (a b : Decimal) :
  m <= _exp a -> m <= _exp b ->
  a ==d b = (aligned m a =? aligned m b).
Proof.
  intros Ha Hb. unfold __eq__. rewrite (cmp_at m) by assumption.
  destruct (Z.compare_spec (aligned m a) (aligned m b));
    symmetry; [apply Z.eqb_eq|apply Z.eqb_neq|apply Z.eqb_neq]; lia.
Qed.





End OrderFacts.

(* ================================================================== *)
(** ** Rounding is a function of the value                             *)
(* ================================================================== *)

Section Digits.
Local Open Scope N_scope.

Lemma pow10_pos_N (k : N) : 0 < 10 ^ k.
Proof. apply N.neq_0_lt_0, N.pow_nonzero. lia. Qed.

(** [len c] is the number of decimal digits of [c]. *)
Lemma len_aux_spec (fuel : nat) : forall c,
  0 < c -> c < 2 ^ N.of_nat fuel ->
  exists l, len_aux fuel c = N.succ l /\ 10 ^ l <= c < 10 ^ N.succ l.
Proof.
  induction fuel as [|fuel IH]; intros c Hc Hlt.
  - simpl in Hlt. lia.
  - simpl len_aux. destruct (N.eqb_spec c 0) as [|_]; [lia|].
    rewrite Nat2N.inj_succ, N.pow_succ_r' in Hlt.
    destruct (N.eq_dec (c / 10) 0) as [E|E].
    + exists 0. rewrite E. split.
      * destruct fuel; simpl; reflexivity.
      * apply (N.div_small_iff c 10 ltac:(lia)) in E.
        change (10 ^ 0) with 1. change (10 ^ N.succ 0) with 10. lia.
    + assert (Hq : c / 10 < 2 ^ N.of_nat fuel).
      { apply N.Div0.div_lt_upper_bound.
        generalize dependent (2 ^ N.of_nat fuel). intros; lia. }
      assert (Hq0 : 0 < c / 10) by (apply N.neq_0_lt_0; exact E).
      destruct (IH (c / 10) Hq0 Hq) as [l [El [Hlo Hhi]]].
      exists (N.succ l). rewrite El. split; [reflexivity|].
      rewrite !N.pow_succ_r' in *.
      pose proof (N.div_mod c 10 ltac:(lia)) as Hdm.
      pose proof (N.mod_lt c 10 ltac:(lia)) as Hm.
      clear IH Hlt E Hq Hq0 El.
      generalize dependent (c / 10). generalize dependent (c mod 10).
      generalize dependent (10 ^ l). intros. lia.
Qed.

Lemma len_spec (c : N) :
  0 < c -> exists l, len c = N.succ l /\ 10 ^ l <= c < 10 ^ N.succ l.
Proof.
  intros Hc. unfold len. destruct (N.eqb_spec c 0); [lia|].
  apply len_aux_spec; [assumption|].
  rewrite N2Nat.id. apply N.size_gt.
Qed.

Lemma len_unique (c l : N) :
  10 ^ l <= c < 10 ^ N.succ l -> len c = N.succ l.
Proof.
  intros [Hlo Hhi].
  assert (Hc : 0 < c) by (pose proof (pow10_pos_N l); lia).
  destruct (len_spec c Hc) as [l' [E [Hlo' Hhi']]]. rewrite E. f_equal.
  destruct (N.lt_trichotomy l l') as [H|[H|H]]; [|now symmetry|].
  - assert (10 ^ N.succ l <= 10 ^ l') by (apply N.pow_le_mono_r; lia). lia.
  - assert (10 ^ N.succ l' <= 10 ^ l) by (apply N.pow_le_mono_r; lia). lia.
Qed.

(** Appending [k] zeros adds [k] digits. *)
Lemma len_shift (c k : N) : 0 < c -> len (c * 10 ^ k) = len c + k.
Proof.
  intros Hc. destruct (len_spec c Hc) as [l [E [Hlo Hhi]]].
  rewrite E. replace (N.succ l + k) with (N.succ (l + k)) by lia.
  apply len_unique.
  rewrite N.pow_succ_r', !N.pow_add_r. rewrite N.pow_succ_r' in Hhi.
  pose proof (pow10_pos_N k). nia.
Qed.

End Digits.

Section Rounding.

Lemma compare_scale (a b p : N) :
  (0 < p)%N -> (a * p ?= b * p)%N = (a ?= b)%N.
Proof.
  intros Hp. destruct (N.compare_spec a b) as [->|H|H].
  - apply N.compare_refl.
  - apply N.compare_lt_iff. nia.
  - apply N.compare_gt_iff. nia.
Qed.

Lemma eq_refl_d (a : Decimal) : a ==d a = true.
Proof. unfold __eq__, _cmp. now rewrite Z.compare_refl. Qed.

Lemma same_value_refl (x : option Decimal) : same_value x x.
Proof. destruct x; simpl; [apply eq_refl_d|exact I]. Qed.

Lemma signed_mk (sg : bool) (c : N) (e : Z) :
  signed (mkDecimal sg c e) = (if sg then -1 else 1) * Z.of_N c.
Proof. unfold signed; simpl. destruct sg; lia. Qed.

(** The same value written with [k] more digits. *)
Lemma eq_shift (sg : bool) (c k : N) (e : Z) :
  mkDecimal sg (c * 10 ^ k) (e - Z.of_N k) ==d mkDecimal sg c e = true.
Proof.
  rewrite (eq_at (e - Z.of_N k)) by (simpl; lia).
  unfold aligned. rewrite !signed_mk. simpl _exp.
  rewrite Z.sub_diag, N2Z.inj_mul, N2Z.inj_pow.
  replace (e - (e - Z.of_N k)) with (Z.of_N k) by lia.
  change (Z.of_N 10) with 10. apply Z.eqb_eq. simpl (10 ^ 0). lia.
Qed.

(** Zeros are equal, whatever their signs and exponents. *)
Lemma eq_zeros (s1 s2 : bool) (e1 e2 : Z) :
  mkDecimal s1 0 e1 ==d mkDecimal s2 0 e2 = true.
Proof.
  rewrite (eq_at (Z.min e1 e2)) by (simpl; lia).
  unfold aligned. rewrite !signed_mk. apply Z.eqb_eq. simpl Z.of_N. lia.
Qed.

Lemma len_pos (c : N) : (1 <= len c)%N.
Proof.
  destruct (N.eq_dec c 0) as [->|H]; [vm_compute; discriminate|].
  destruct (len_spec c ltac:(lia)) as [l [-> _]]. lia.
Qed.

(** Rounding does not depend on how many trailing zeros the
    coefficient is written with. *)
Lemma fix_shift (sg : bool) (c k : N) (e : Z) :
  (0 < c)%N ->
  same_value (_fix (mkDecimal sg (c * 10 ^ k) (e - Z.of_N k)))
             (_fix (mkDecimal sg c e)).
Proof.
  intros Hc.
  pose proof (pow10_pos_N k) as Hk.
  pose proof (len_pos c) as Hn.
  unfold _fix. cbn [_int _exp _sign].
  destruct (N.eqb_spec (c * 10 ^ k) 0) as [E0|_]; [nia|].
  destruct (N.eqb_spec c 0) as [|_]; [lia|].
  rewrite (len_shift c k Hc).
  set (n := len c) in *.
  replace (Z.of_N (n + k) + (e - Z.of_N k) - Z.of_N prec)
    with (Z.of_N n + e - Z.of_N prec) by lia.
  set (E0 := Z.of_N n + e - Z.of_N prec).
  destruct (Etop <? E0); [exact I|].
  set (E := Z.max E0 Etiny).
  replace (Z.of_N (n + k) + (e - Z.of_N k) - E)
    with (Z.of_N n + e - E) by lia.
  destruct (Z.ltb_spec e E) as [Hx|Hx].
  - (* both are rounded, to the same digits *)
    destruct (Z.ltb_spec (e - Z.of_N k) E) as [_|Hy]; [|lia].
    destruct (Z.ltb_spec (Z.of_N n + e - E) 0) as [Hd|Hd];
      cbn [_int _exp]; [apply same_value_refl|].
    set (j := Z.to_N (E - e)).
    assert (Hj : (0 < j)%N) by (unfold j; lia).
    replace (Z.to_N (E - (e - Z.of_N k))) with (j + k)%N by (unfold j; lia).
    rewrite N.pow_add_r.
    rewrite N.Div0.div_mul_cancel_r by lia.
    rewrite N.Div0.mul_mod_distr_r.
    assert (Hr : round_half_even (c / 10 ^ j) (c mod 10 ^ j * 10 ^ k) (j + k)
                 = round_half_even (c / 10 ^ j) (c mod 10 ^ j) j).
    { unfold round_half_even.
      replace (j + k - 1)%N with ((j - 1) + k)%N by lia.
      rewrite N.pow_add_r, N.mul_assoc, compare_scale by assumption.
      reflexivity. }
    rewrite Hr. apply same_value_refl.
  - destruct (Z.ltb_spec (e - Z.of_N k) E) as [Hy|Hy].
    + (* only the longer writing is rounded: zeros are dropped *)
      destruct (Z.ltb_spec (Z.of_N n + e - E) 0) as [Hd|_]; [lia|].
      cbn [_int _exp].
      set (d := Z.to_N (e - E)).
      set (j := Z.to_N (E - (e - Z.of_N k))).
      assert (Hjk : k = (d + j)%N) by (unfold d, j; lia).
      assert (Hj : (0 < j)%N) by (unfold j; lia).
      assert (Hq : (c * 10 ^ k / 10 ^ j = c * 10 ^ d)%N).
      { rewrite Hjk, N.pow_add_r, N.mul_assoc.
        apply N.div_mul. apply N.pow_nonzero. lia. }
      assert (Hm : ((c * 10 ^ k) mod 10 ^ j = 0)%N).
      { rewrite Hjk, N.pow_add_r, N.mul_assoc. apply N.Div0.mod_mul. }
      rewrite Hq, Hm.
      assert (Hr : round_half_even (c * 10 ^ d) 0 j = false).
      { unfold round_half_even.
        pose proof (pow10_pos_N (j - 1)).
        destruct (N.compare_spec 0 (5 * 10 ^ (j - 1))); [lia|reflexivity|lia]. }
      rewrite Hr.
      assert (Hlen : (len (c * 10 ^ d) <= prec)%N).
      { rewrite (len_shift c d Hc). fold n. unfold d, E, E0. lia. }
      destruct (N.ltb_spec prec (len (c * 10 ^ d))); [lia|].
      replace E with (e - Z.of_N d) by (unfold d; lia).
      apply eq_shift.
    + apply eq_shift.
Qed.

End Rounding.

Section RoundingValue.

Lemma eq_sym_d (a b : Decimal) : a ==d b = (b ==d a).
Proof.
  set (m := Z.min (_exp a) (_exp b)).
  rewrite (eq_at m a b), (eq_at m b a) by (unfold m; lia).
  apply Z.eqb_sym.
Qed.

Lemma eq_trans_d (a b c : Decimal) :
  a ==d b = true -> b ==d c = true -> a ==d c = true.
Proof.
  set (m := Z.min (_exp a) (Z.min (_exp b) (_exp c))).
  rewrite (eq_at m a b), (eq_at m b c), (eq_at m a c) by (unfold m; lia).
  lia.
Qed.

Lemma same_value_sym (x y : option Decimal) :
  same_value x y -> same_value y x.
Proof.
  destruct x, y; simpl; try tauto. now rewrite eq_sym_d.
Qed.

(** Two writings of one value: the one with the smaller exponent has
    the coefficient of the other followed by zeros. *)
Lemma eq_writing (sx sy : bool) (cx cy : N) (ex ey : Z) :
  mkDecimal sx cx ex ==d mkDecimal sy cy ey = true ->
  (0 < cx)%N -> ey <= ex ->
  sy = sx /\ cy = (cx * 10 ^ Z.to_N (ex - ey))%N.
Proof.
  intros H Hc Hle.
  rewrite (eq_at ey) in H by (simpl; lia).
  unfold aligned in H. rewrite !signed_mk in H. simpl _exp in H.
  rewrite Z.sub_diag in H. apply Z.eqb_eq in H.
  assert (Hp : 0 < 10 ^ (ex - ey)) by (apply pow10_pos; lia).
  assert (Hz : Z.of_N (cx * 10 ^ Z.to_N (ex - ey)) =
               Z.of_N cx * 10 ^ (ex - ey)).
  { rewrite N2Z.inj_mul, N2Z.inj_pow, Z2N.id by lia. reflexivity. }
  simpl (10 ^ 0) in H.
  destruct sx, sy; split; try reflexivity; try (exfalso; nia);
    apply N2Z.inj; rewrite Hz; nia.
Qed.

(** A decimal equal to a zero is a zero. *)
Lemma eq_zero_int (sx sy : bool) (cy : N) (ex ey : Z) :
  mkDecimal sx 0 ex ==d mkDecimal sy cy ey = true -> cy = 0%N.
Proof.
  intros H.
  rewrite (eq_at (Z.min ex ey)) in H by (simpl; lia).
  unfold aligned in H. rewrite !signed_mk in H. simpl _exp in H.
  apply Z.eqb_eq in H.
  assert (0 < 10 ^ (ey - Z.min ex ey)) by (apply pow10_pos; lia).
  destruct sy; nia.
Qed.

(** Rounding is a function of the value: so is the trap. *)
Lemma fix_value (x y : Decimal) :
  x ==d y = true -> same_value (_fix x) (_fix y).
Proof.
  destruct x as [sx cx ex], y as [sy cy ey]. intros H.
  destruct (N.eq_dec cx 0) as [->|Hx].
  - (* both are zero *)
    rewrite (eq_zero_int _ _ _ _ _ H).
    unfold _fix. cbn [_int _sign _exp N.eqb]. apply eq_zeros.
  - destruct (Z.le_gt_cases ey ex) as [Hle|Hgt].
    + destruct (eq_writing _ _ _ _ _ _ H ltac:(lia) Hle) as [-> ->].
      apply same_value_sym.
      pose proof (fix_shift sx cx (Z.to_N (ex - ey)) ex ltac:(lia)) as F.
      replace (ex - Z.of_N (Z.to_N (ex - ey))) with ey in F by lia.
      exact F.
    + rewrite eq_sym_d in H.
      assert (Hy : (0 < cy)%N).
      { destruct (N.eq_dec cy 0) as [->|]; [|lia]. exfalso.
        apply eq_zero_int in H. lia. }
      destruct (eq_writing _ _ _ _ _ _ H Hy ltac:(lia)) as [-> ->].
      pose proof (fix_shift sy cy (Z.to_N (ey - ex)) ey Hy) as F.
      replace (ey - Z.of_N (Z.to_N (ey - ex))) with ex in F by lia.
      exact F.
Qed.

Lemma fix_negate (d : Decimal) :
  _fix (copy_negate d) = option_map copy_negate (_fix d).
Proof.
  destruct d as [s c e]. unfold _fix, copy_negate. cbn [_int _exp _sign].
  destruct (c =? 0)%N; [reflexivity|].
  destruct (Etop <? _); [reflexivity|].
  destruct (e <? _); [|reflexivity].
  destruct (_ <? 0); cbn [_int _exp];
    repeat match goal with
           | |- context [if ?c then _ else _] => destruct c
           end; reflexivity.
Qed.

Lemma negate_value (a b : Decimal) :
  a ==d b = true -> copy_negate a ==d copy_negate b = true.
Proof.
  set (m := Z.min (_exp a) (_exp b)).
  rewrite (eq_at m a b), (eq_at m (copy_negate a) (copy_negate b))
    by (simpl; unfold m; lia).
  rewrite !copy_negate_aligned. lia.
Qed.

(** What the context leaves alone depends on the value only. *)
Lemma representable_value (x y : Decimal) :
  x ==d y = true -> representable y ->
  exists r, _fix x = Some r /\ r ==d y = true.
Proof.
  intros H Hy. unfold representable, representableb in Hy.
  pose proof (fix_value x y H) as F.
  destruct (_fix y) as [ry|]; [|discriminate].
  destruct (_fix x) as [rx|]; [|contradiction].
  exists rx. split; [reflexivity|].
  simpl in F. now apply eq_trans_d with (b := ry).
Qed.

Lemma representable_fix (d : Decimal) :
  representable d -> exists r, _fix d = Some r /\ r ==d d = true.
Proof. intros H. apply representable_value; [apply eq_refl_d|exact H]. Qed.

End RoundingValue.

(* ================================================================== *)
(** ** The value of a decimal                                          *)
(* ================================================================== *)

Section Values.
Local Open Scope Q_scope.

Lemma ten_nonzero : ~ (10 # 1) == 0.
Proof. intros H. discriminate H. Qed.

Lemma ten_power_pos (m : Z) : 0 < (10 # 1) ^ m.
Proof. apply Qpower_0_lt. reflexivity. Qed.

Lemma value_aligned (m : Z) (d : Decimal) :
  (m <= _exp d)%Z ->
  inject_Z (aligned m d) * (10 # 1) ^ m == value d.
Proof.
  intros Hm. unfold aligned, value.
  rewrite inject_Z_mult, Zpower_Qpower by lia.
  change (inject_Z 10) with (10 # 1).
  rewrite <- Qmult_assoc, <- Qpower_plus by exact ten_nonzero.
  replace (_exp d - m + m)%Z with (_exp d) by lia. reflexivity.
Qed.

(** Decimals compare as their values do. *)
Lemma eq_value (a b : Decimal) : a ==d b = true <-> value a == value b.
Proof.
  set (m := Z.min (_exp a) (_exp b)).
  rewrite (eq_at m) by (unfold m; lia).
  rewrite <- (value_aligned m a), <- (value_aligned m b) by (unfold m; lia).
  rewrite Z.eqb_eq, Qmult_inj_r, inject_Z_injective.
  - reflexivity.
  - pose proof (ten_power_pos m) as H. intros E. rewrite E in H.
    discriminate H.
Qed.


Lemma gt_le (a b : Decimal) : a >d b = negb (a <=d b).
Proof. unfold __gt__, __le__. destruct (_cmp a b); reflexivity. Qed.

Lemma ge_lt (a b : Decimal) : a >=d b = negb (a <d b).
Proof. unfold __ge__, __lt__. destruct (_cmp a b); reflexivity. Qed.

Lemma value_zero : value zero == 0.
Proof. reflexivity. Qed.

Lemma value_exact_add (a b : Decimal) :
  value (exact_add a b) == value a + value b.
Proof.
  set (m := Z.min (_exp a) (_exp b)).
  rewrite <- (value_aligned m (exact_add a b))
    by (rewrite exact_add_exp; fold m; lia).
  rewrite exact_add_aligned by (unfold m; lia).
  rewrite inject_Z_plus, Qmult_plus_distr_l.
  now rewrite !value_aligned by (unfold m; lia).
Qed.

Lemma value_negate (a : Decimal) : value (copy_negate a) == - value a.
Proof.
  unfold value. cbn [_exp copy_negate].
  replace (signed (copy_negate a)) with (- signed a)%Z.
  - rewrite inject_Z_opp. ring.
  - unfold signed, copy_negate; simpl. destruct (_sign a); simpl; lia.
Qed.


(** Arithmetic that the context does not round. *)
Lemma add_exact (a b : Decimal) :
  representable (exact_add a b) ->
  exists r, a +d b = Some r /\ value r == value a + value b.
Proof.
  intros H. destruct (representable_fix _ H) as [r [Hr Hv]].
  exists r. split; [exact Hr|].
  apply eq_value in Hv. rewrite Hv. apply value_exact_add.
Qed.

Lemma sub_exact (a b : Decimal) :
  representable (exact_add a (copy_negate b)) ->
  exists r, a -d b = Some r /\ value r == value a - value b.
Proof.
  intros H. destruct (add_exact _ _ H) as [r [Hr Hv]].
  exists r. split; [exact Hr|]. rewrite Hv, value_negate. ring.
Qed.

Lemma neg_exact (a : Decimal) :
  representable a -> (0 < _int a)%N ->
  exists r, __neg__ a = Some r /\ r ==d copy_negate a = true.
Proof.
  intros H Hp. destruct (representable_fix _ H) as [r [Hr Hv]].
  exists (copy_negate r). unfold __neg__.
  destruct (N.eqb_spec (_int a) 0); [lia|].
  rewrite fix_negate, Hr. split; [reflexivity|]. now apply negate_value.
Qed.


End Values.

(* ================================================================== *)
(** ** Sorting by a decimal key                                        *)
(* ================================================================== *)

Section SortFacts.
Context {A : Type} (key : A -> Decimal).













End SortFacts.

(* ================================================================== *)
(** ** Dicts built from rows                                           *)
(* ================================================================== *)

Section DictFacts.
Context {V : Type}.
Implicit Types (d : Py.dict V) (k : string) (v : V)
  (items : list (string * V)).

Let step := fun d (kv : string * V) => Py.setitem (fst kv) (snd kv) d.

Lemma getitem_setitem k k' v d :
  Py.getitem k (Py.setitem k' v d) =
  if String.eqb k' k then Some v else Py.getitem k d.
Proof.
  induction d as [|[k0 v0] d IH]; simpl.
  - destruct (String.eqb_spec k' k); reflexivity.
  - destruct (String.eqb_spec k0 k') as [->|Hne]; simpl.
    + destruct (String.eqb_spec k' k); reflexivity.
    + destruct (String.eqb_spec k0 k) as [->|Hne'].
      * destruct (String.eqb_spec k' k); [congruence|reflexivity].
      * exact IH.
Qed.

Lemma contains_setitem k k' v d :
  Py.contains k (Py.setitem k' v d) = String.eqb k' k || Py.contains k d.
Proof.
  unfold Py.contains.
  induction d as [|[k0 v0] d IH]; simpl.
  - reflexivity.
  - destruct (String.eqb_spec k0 k') as [->|Hne]; simpl.
    + destruct (String.eqb k' k); reflexivity.
    + rewrite IH. destruct (String.eqb k0 k), (String.eqb k' k); reflexivity.
Qed.

Lemma getitem_fold k items : forall d,
  Py.getitem k (fold_left step items d) =
  match Py.assoc_last k items with
  | Some v => Some v
  | None => Py.getitem k d
  end.
Proof.
  induction items as [|[k0 v0] items IH]; intros d; simpl; [reflexivity|].
  rewrite IH. destruct (Py.assoc_last k items); [reflexivity|].
  unfold step; simpl. rewrite getitem_setitem.
  destruct (String.eqb k0 k); reflexivity.
Qed.

Lemma contains_fold k items : forall d,
  Py.contains k (fold_left step items d) =
  existsb (fun kv => String.eqb (fst kv) k) items || Py.contains k d.
Proof.
  induction items as [|[k0 v0] items IH]; intros d; simpl; [reflexivity|].
  rewrite IH. unfold step; simpl. rewrite contains_setitem.
  destruct (String.eqb k0 k), (existsb _ items); reflexivity.
Qed.

Lemma getitem_of_items k items :
  Py.getitem k (Py.of_items items) = Py.assoc_last k items.
Proof.
  unfold Py.of_items. fold step. rewrite getitem_fold.
  destruct (Py.assoc_last k items); reflexivity.
Qed.

Lemma contains_of_items k items :
  Py.contains k (Py.of_items items) =
  existsb (fun kv => String.eqb (fst kv) k) items.
Proof.
  unfold Py.of_items. fold step. rewrite contains_fold.
  simpl. apply orb_false_r.
Qed.

Lemma assoc_last_none k items :
  Py.assoc_last k items = None <->
  existsb (fun kv => String.eqb (fst kv) k) items = false.
Proof.
  induction items as [|[k0 v0] items IH]; simpl; [tauto|].
  destruct (Py.assoc_last k items).
  - split; [discriminate|].
    intros H. apply orb_false_iff in H. destruct H as [_ H].
    apply IH in H. discriminate.
  - destruct (String.eqb k0 k); simpl.
    + split; discriminate.
    + tauto.
Qed.




End DictFacts.

(* ================================================================== *)
(** ** Reading the tables                                              *)
(* ================================================================== *)

Section Reads.

Local Abbreviation row_item :=
  (fun r => (data_name r, mkAccount (data_time r) (data_balance r))).

Lemma existsb_items (n : string) (rows : list data_row) :
  existsb (fun kv => String.eqb (fst kv) n) (map row_item rows) =
  existsb (has_name n) rows.
Proof.
  induction rows as [|r rows IH]; simpl; [reflexivity|].
  now rewrite IH.
Qed.

Lemma lookup_none (db : DB) (n : string) :
  lookup db n = None <-> existsb (has_name n) (data db) = false.
Proof.
  unfold lookup. rewrite assoc_last_none. now rewrite existsb_items.
Qed.

Lemma lookup_some (db : DB) (n : string) (a : account) :
  lookup db n = Some a -> existsb (has_name n) (data db) = true.
Proof.
  intros H. destruct (existsb (has_name n) (data db)) eqn:E; [reflexivity|].
  apply lookup_none in E. congruence.
Qed.

Lemma get_all_data_eq (db : DB) :
  __get_all_data db = (Ok (Py.of_items (map row_item (data db))), db).
Proof. reflexivity. Qed.

Lemma is_account_eq (n : string) (db : DB) :
  is_account n db = (Ok (existsb (has_name n) (data db)), db).
Proof.
  unfold is_account, __get_all_data, bind, select_data, ret.
  now rewrite contains_of_items, existsb_items.
Qed.

Lemma priv_get_balance_eq (n : string) (db : DB) :
  __get_balance n db =
  (match lookup db n with
   | Some a => Ok (acc_balance a)
   | None => Raised KeyError
   end, db).
Proof.
  unfold __get_balance, __get_all_data, bind, select_data, ret.
  rewrite getitem_of_items. fold (lookup db n).
  destruct (lookup db n); reflexivity.
Qed.

Lemma priv_get_open_time_eq (n : string) (db : DB) :
  __get_open_time n db =
  (match lookup db n with
   | Some a => Ok (acc_time a)
   | None => Raised KeyError
   end, db).
Proof.
  unfold __get_open_time, __get_all_data, bind, select_data, ret.
  rewrite getitem_of_items. fold (lookup db n).
  destruct (lookup db n); reflexivity.
Qed.

Lemma get_balance_eq (n : string) (db : DB) :
  get_balance n db =
  (match lookup db n with
   | Some a => Ok (acc_balance a)
   | None => Raised AccountNotExistsError
   end, db).
Proof.
  unfold get_balance, bind. rewrite is_account_eq.
  destruct (lookup db n) as [a|] eqn:E.
  - rewrite (lookup_some _ _ _ E). simpl.
    rewrite priv_get_balance_eq, E. reflexivity.
  - apply lookup_none in E. rewrite E. reflexivity.
Qed.

Lemma get_open_time_eq (n : string) (db : DB) :
  get_open_time n db =
  (match lookup db n with
   | Some a => Ok (acc_time a)
   | None => Raised AccountNotExistsError
   end, db).
Proof.
  unfold get_open_time, bind. rewrite is_account_eq.
  destruct (lookup db n) as [a|] eqn:E.
  - rewrite (lookup_some _ _ _ E). simpl.
    rewrite priv_get_open_time_eq, E. reflexivity.
  - apply lookup_none in E. rewrite E. reflexivity.
Qed.

(** *** Rows after an update *)

Lemma with_balance_names (n : string) (b : Decimal) (rows : list data_row) :
  map data_name (with_balance n b rows) = map data_name rows.
Proof.
  unfold with_balance. rewrite map_map. apply map_ext.
  intros r. destruct (has_name n r); reflexivity.
Qed.

Lemma with_balance_exists (n n' : string) (b : Decimal) rows :
  existsb (has_name n') (with_balance n b rows) = existsb (has_name n') rows.
Proof.
  induction rows as [|r rows IH]; simpl; [reflexivity|].
  rewrite IH. f_equal.
  destruct (has_name n r); reflexivity.
Qed.

Lemma lookup_with_balance (n n' : string) (b : Decimal) (db : DB) l :
  lookup (mkDB (with_balance n b (data db)) l) n' =
  if String.eqb n n'
  then option_map (fun a => mkAccount (acc_time a) b) (lookup db n')
  else lookup db n'.
Proof.
  unfold lookup; simpl.
  induction (data db) as [|r rows IH]; simpl.
  - destruct (String.eqb n n'); reflexivity.
  - rewrite IH. clear IH. unfold has_name.
    destruct (String.eqb_spec (data_name r) n) as [E|E]; simpl;
      destruct (String.eqb_spec n n') as [E'|E'];
      destruct (Py.assoc_last n' _); simpl; try reflexivity;
      destruct (String.eqb_spec (data_name r) n'); simpl;
      try reflexivity; congruence.
Qed.

End Reads.

(* ================================================================== *)
(** ** What each call does to the database                             *)
(* ================================================================== *)

Section Literals.

Lemma literal_plain (s : string) : plain s = true -> literal s = Some s.
Proof.
  induction s as [|c s IH]; simpl; [reflexivity|].
  intros H. apply andb_prop in H. destruct H as [H Hs].
  apply andb_prop in H. destruct H as [Hq Hn].
  destruct (Ascii.eqb c quote); [discriminate|].
  destruct (Ascii.eqb c nul); [discriminate|].
  now rewrite (IH Hs).
Qed.

End Literals.

Section Calls.

Variable env : Env.

Lemma set_balance_eq (n : string) (b : Decimal) (db : DB) :
  __set_balance n b db =
  if existsb (has_name n) (data db) then
    if check_balance b
    then (Ok tt, mkDB (with_balance n b (data db)) (log db))
    else (Raised IntegrityError, db)
  else (Ok tt, db).
Proof. reflexivity. Qed.

Lemma log_eq (d c : string) (a : Decimal) (db : DB) :
  __log env d c a db =
  match literal d, literal c with
  | Some d', Some c' =>
      (Ok tt, mkDB (data db)
                   (log db ++ [mkLog (uuid4 env) (now env) d' c' a]))
  | _, _ => (Crafted, db)
  end.
Proof. reflexivity. Qed.

Lemma give_eq (n : string) (a : Decimal) (op : string) (db : DB) :
  give env n a op db =
  match lookup db n with
  | None => (Raised AccountNotExistsError, db)
  | Some acc =>
      if a <=d zero then (Raised AmountIllegalError, db)
      else
        match acc_balance acc +d a with
        | None => (Raised Overflow, db)
        | Some b' =>
            if check_balance b'
            then __log env op n a
                   (mkDB (with_balance n b' (data db)) (log db))
            else (Raised IntegrityError, db)
        end
  end.
Proof.
  unfold give, bind. rewrite is_account_eq.
  destruct (lookup db n) as [acc|] eqn:E.
  - rewrite (lookup_some _ _ _ E). simpl.
    destruct (a <=d zero); [reflexivity|].
    rewrite priv_get_balance_eq, E. cbv beta iota.
    destruct (acc_balance acc +d a) as [b'|]; [|reflexivity].
    cbn [arith ret]. rewrite set_balance_eq, (lookup_some _ _ _ E).
    destruct (check_balance _); reflexivity.
  - apply lookup_none in E. rewrite E. reflexivity.
Qed.

Lemma take_eq (n : string) (a : Decimal) (op : string) (db : DB) :
  take env n a op db =
  match lookup db n with
  | None => (Raised AccountNotExistsError, db)
  | Some acc =>
      if a <=d zero then (Raised AmountIllegalError, db)
      else if a >d acc_balance acc then (Raised InsufficientBalanceError, db)
      else
        match acc_balance acc -d a with
        | None => (Raised Overflow, db)
        | Some b' =>
            if check_balance b' then
              match __neg__ a with
              | None =>
                  (Raised Overflow,
                   mkDB (with_balance n b' (data db)) (log db))
              | Some minus_a =>
                  __log env op n minus_a
                    (mkDB (with_balance n b' (data db)) (log db))
              end
            else (Raised IntegrityError, db)
        end
  end.
Proof.
  unfold take, bind. rewrite is_account_eq.
  destruct (lookup db n) as [acc|] eqn:E.
  - rewrite (lookup_some _ _ _ E). simpl.
    destruct (a <=d zero); [reflexivity|].
    rewrite priv_get_balance_eq, E. cbv beta iota.
    destruct (a >d acc_balance acc); [reflexivity|].
    rewrite priv_get_balance_eq, E. cbv beta iota.
    destruct (acc_balance acc -d a) as [b'|]; [|reflexivity].
    cbn [arith ret]. rewrite set_balance_eq, (lookup_some _ _ _ E).
    destruct (check_balance _); [|reflexivity].
    destruct (__neg__ a); reflexivity.
  - apply lookup_none in E. rewrite E. reflexivity.
Qed.

Lemma set_eq (n : string) (a : Decimal) (op : string) (db : DB) :
  set env n a op db =
  match lookup db n with
  | None => (Raised AccountNotExistsError, db)
  | Some acc =>
      if a <d zero then (Raised AmountIllegalError, db)
      else if check_balance a then
        match a -d acc_balance acc with
        | None =>
            (Raised Overflow, mkDB (with_balance n a (data db)) (log db))
        | Some delta =>
            __log env op n delta
              (mkDB (with_balance n a (data db)) (log db))
        end
      else (Raised IntegrityError, db)
  end.
Proof.
  unfold set, bind. rewrite is_account_eq.
  destruct (lookup db n) as [acc|] eqn:E.
  - rewrite (lookup_some _ _ _ E). simpl.
    destruct (a <d zero); [reflexivity|].
    rewrite priv_get_balance_eq, E. cbv beta iota.
    rewrite set_balance_eq, (lookup_some _ _ _ E).
    destruct (check_balance _); [|reflexivity].
    destruct (a -d acc_balance acc); reflexivity.
  - apply lookup_none in E. rewrite E. reflexivity.
Qed.

Lemma create_account_eq (n : string) (db : DB) :
  create_account env n db =
  if existsb (has_name n) (data db) then (Ok tt, db)
  else
    match literal n with
    | None => (Crafted, db)
    | Some name =>
        if existsb (has_name name) (data db)
        then (Raised IntegrityError, db)
        else (Ok tt,
              mkDB (data db ++ [mkData name (now env) zero_00]) (log db))
    end.
Proof.
  unfold create_account, bind. rewrite get_all_data_eq.
  unfold Py.keys_view. rewrite contains_of_items, existsb_items.
  unfold insert_data.
  destruct (existsb (has_name n) (data db)); simpl; reflexivity.
Qed.

Lemma transfer_eq (d c : string) (a : Decimal) (db : DB) :
  transfer env d c a db =
  match lookup db d, lookup db c with
  | Some da, Some ca =>
      if a <=d zero then (Raised AmountIllegalError, db)
      else if a >d acc_balance da then (Raised InsufficientBalanceError, db)
      else
        match acc_balance da -d a with
        | None => (Raised Overflow, db)
        | Some dn =>
            match acc_balance ca +d a with
            | None => (Raised Overflow, db)
            | Some cn =>
                if check_balance dn then
                  if check_balance cn
                  then __log env d c a
                         (mkDB (with_balance c cn
                                  (with_balance d dn (data db)))
                               (log db))
                  else (Raised IntegrityError,
                        mkDB (with_balance d dn (data db)) (log db))
                else (Raised IntegrityError, db)
            end
        end
  | _, _ => (Raised AccountNotExistsError, db)
  end.
Proof.
  unfold transfer, bind. rewrite is_account_eq.
  destruct (lookup db d) as [da|] eqn:Ed.
  - rewrite (lookup_some _ _ _ Ed). rewrite is_account_eq.
    destruct (lookup db c) as [ca|] eqn:Ec.
    + rewrite (lookup_some _ _ _ Ec). simpl.
      destruct (a <=d zero); [reflexivity|].
      rewrite priv_get_balance_eq, Ed. cbv beta iota.
      destruct (a >d acc_balance da); [reflexivity|].
      rewrite !get_balance_eq, Ed, Ec. cbv beta iota.
      destruct (acc_balance da -d a) as [dn|]; [|reflexivity].
      cbn [arith ret].
      destruct (acc_balance ca +d a) as [cn|]; [|reflexivity].
      cbn [arith ret].
      rewrite set_balance_eq, (lookup_some _ _ _ Ed).
      destruct (check_balance dn); [|reflexivity].
      rewrite set_balance_eq. simpl data.
      rewrite with_balance_exists, (lookup_some _ _ _ Ec).
      destruct (check_balance cn); reflexivity.
    + apply lookup_none in Ec. rewrite Ec. reflexivity.
  - apply lookup_none in Ed. rewrite Ed. simpl.
    destruct (lookup db c); reflexivity.
Qed.

End Calls.

(** Case analysis on what a call does. *)
Ltac call_step :=
  match goal with
  | |- context [match lookup ?db ?n with _ => _ end] =>
      destruct (lookup db n) eqn:?
  | |- context [match __add__ ?a ?b with _ => _ end] =>
      destruct (__add__ a b) eqn:?
  | |- context [match __sub__ ?a ?b with _ => _ end] =>
      destruct (__sub__ a b) eqn:?
  | |- context [match __neg__ ?a with _ => _ end] =>
      destruct (__neg__ a) eqn:?
  | |- context [match literal ?s with _ => _ end] =>
      destruct (literal s) eqn:?
  | |- context [if ?c then _ else _] => destruct c eqn:?
  end.

Ltac call_cases :=
  cbv zeta;
  repeat first [rewrite log_eq | call_step];
  cbn [fst snd data log].

(* ================================================================== *)
(** ** The table constraints hold in every reachable database          *)
(* ================================================================== *)

Section Invariant.

Lemma well_formed_empty : well_formed empty.
Proof. split; simpl; constructor. Qed.

Lemma well_formed_with_balance (n : string) (b : Decimal) (db : DB) l :
  well_formed db -> check_balance b = true ->
  well_formed (mkDB (with_balance n b (data db)) l).
Proof.
  intros [Hn Hc] Hb. split; simpl.
  - now rewrite with_balance_names.
  - unfold with_balance. apply Forall_map.
    eapply Forall_impl; [|exact Hc]. simpl.
    intros r Hr. destruct (has_name n r); simpl; assumption.
Qed.

Lemma existsb_has_name (n : string) (rows : list data_row) :
  existsb (has_name n) rows = false -> ~ In n (map data_name rows).
Proof.
  induction rows as [|r rows IH]; simpl; [tauto|].
  intros H. apply orb_false_iff in H. destruct H as [H1 H2].
  intros [E|E].
  - unfold has_name in H1. rewrite E, String.eqb_refl in H1. discriminate.
  - now apply IH.
Qed.

Lemma has_name_existsb (n : string) (rows : list data_row) :
  existsb (has_name n) rows = true <-> In n (map data_name rows).
Proof.
  split.
  - intros H. apply existsb_exists in H. destruct H as [r [Hr Hn]].
    apply String.eqb_eq in Hn. subst n. now apply in_map.
  - intros H. destruct (existsb (has_name n) rows) eqn:E; [reflexivity|].
    now apply existsb_has_name in E.
Qed.

Lemma NoDup_snoc {A : Type} (x : A) (l : list A) :
  NoDup l -> ~ In x l -> NoDup (l ++ [x]).
Proof.
  induction l as [|y l IH]; simpl; intros Hn Hx.
  - constructor; [tauto|constructor].
  - inversion Hn; subst. constructor.
    + rewrite in_app_iff. simpl. intuition congruence.
    + apply IH; tauto.
Qed.

Lemma well_formed_insert (n : string) (t : Z) (b : Decimal) (db : DB) :
  well_formed db -> existsb (has_name n) (data db) = false ->
  check_balance b = true ->
  well_formed (mkDB (data db ++ [mkData n t b]) (log db)).
Proof.
  intros [Hn Hc] He Hb. split; simpl.
  - rewrite map_app. simpl.
    apply NoDup_snoc; [assumption|]. now apply existsb_has_name.
  - apply Forall_app. split; [assumption|].
    constructor; [assumption|constructor].
Qed.

Lemma well_formed_log (db : DB) l :
  well_formed db -> well_formed (mkDB (data db) l).
Proof. intros H. exact H. Qed.

Ltac wf_cases :=
  call_cases;
  auto using well_formed_with_balance;
  try (match goal with
       | |- well_formed (mkDB (data ?d) ?l) =>
           apply (well_formed_log d l)
       end;
       auto using well_formed_with_balance).

(** Every call, however it ends, keeps the constraints. *)
Lemma well_formed_run (env : Env) (c : call) (db : DB) :
  well_formed db -> well_formed (snd (run env c db)).
Proof.
  intros H.
  destruct c as [n|n a op|n a op|n a op|d cr a]; simpl.
  - rewrite create_account_eq. wf_cases. apply well_formed_insert; auto.
  - rewrite give_eq. wf_cases.
  - rewrite take_eq. wf_cases.
  - rewrite set_eq. wf_cases.
  - rewrite transfer_eq. wf_cases;
      apply (well_formed_with_balance cr _
               (mkDB (with_balance d _ (data db)) (log db)));
      auto using well_formed_with_balance.
Qed.

Lemma reachable_well_formed (db : DB) : reachable db -> well_formed db.
Proof.
  induction 1 as [|db env c _ IH].
  - exact well_formed_empty.
  - now apply well_formed_run.
Qed.

Lemma reachable_run_all (cs : list (Env * call)) : forall db,
  reachable db -> reachable (run_all cs db).
Proof.
  induction cs as [|[env c] cs IH]; intros db H; simpl; [assumption|].
  apply IH. now constructor.
Qed.

Lemma lookup_in (db : DB) (n : string) (a : account) :
  lookup db n = Some a ->
  exists r, In r (data db) /\ data_name r = n /\
            a = mkAccount (data_time r) (data_balance r).
Proof.
  unfold lookup. induction (data db) as [|r rows IH]; simpl; [discriminate|].
  destruct (Py.assoc_last n _) as [a'|].
  - intros H. destruct (IH H) as [r' [Hin Hr']]. exists r'. tauto.
  - destruct (String.eqb_spec (data_name r) n) as [E|E]; [|discriminate].
    intros H. injection H as <-. exists r. tauto.
Qed.

Lemma well_formed_lookup (db : DB) (n : string) (a : account) :
  well_formed db -> lookup db n = Some a ->
  _sign (acc_balance a) = false.
Proof.
  intros [_ Hc] H. apply lookup_in in H. destruct H as [r [Hin [_ ->]]].
  rewrite Forall_forall in Hc. specialize (Hc r Hin).
  unfold check_balance in Hc. simpl.
  destruct (_sign (data_balance r)); [discriminate|reflexivity].
Qed.

End Invariant.

(* ================================================================== *)
(** ** Properties of the API                                           *)
(* ================================================================== *)

Section Properties.

Lemma assoc_last_snoc {V : Type} (k k' : string) (v : V) items :
  Py.assoc_last k (items ++ [(k', v)]) =
  if String.eqb k' k then Some v else Py.assoc_last k items.
Proof.
  induction items as [|[k0 v0] items IH]; simpl.
  - destruct (String.eqb k' k); reflexivity.
  - rewrite IH. destruct (String.eqb k' k); reflexivity.
Qed.

Lemma lookup_insert (n n' : string) (t : Z) (b : Decimal) (db : DB) l :
  lookup (mkDB (data db ++ [mkData n t b]) l) n' =
  if String.eqb n n' then Some (mkAccount t b) else lookup db n'.
Proof.
  unfold lookup; simpl. rewrite map_app. simpl. apply assoc_last_snoc.
Qed.

Lemma is_account_true (n : string) (db : DB) :
  fst (is_account n db) = Ok true -> exists a, lookup db n = Some a.
Proof.
  rewrite is_account_eq. simpl. intros H. injection H as H.
  destruct (lookup db n) as [a|] eqn:E; [now exists a|].
  apply lookup_none in E. congruence.
Qed.

Lemma get_balance_ok (n : string) (db : DB) (b : Decimal) :
  fst (get_balance n db) = Ok b ->
  exists a, lookup db n = Some a /\ acc_balance a = b.
Proof.
  rewrite get_balance_eq. simpl.
  destruct (lookup db n) as [a|]; [|discriminate].
  intros H. injection H as H. now exists a.
Qed.

(** In every database reached from the empty one by calls of the API,
    however they ended, the balance of every account that exists is at
    least zero.  (The databases reached are those of the embedding:
    what a crafted statement does is not among them.) *)
Theorem balance_never_negative (db : DB) (name : string) (b : Decimal) :
  reachable db ->
  fst (get_balance name db) = Ok b ->
  b >=d zero = true.
Proof.
  intros Hr Hb.
  apply get_balance_ok in Hb. destruct Hb as [a [Ha <-]].
  apply unsigned_ge_zero.
  eapply well_formed_lookup; [|exact Ha].
  now apply reachable_well_formed.
Qed.

(** C3.  A call that is rejected with [AccountNotExistsError],
    [AmountIllegalError] or [InsufficientBalanceError] leaves the
    database exactly as it was: no balance, no account and no log
    entry differs. *)
Theorem rejected_call_changes_nothing (env : Env) (c : call) (db : DB)
    (e : exn) :
  fst (run env c db) = Raised e ->
  is_rejection e = true ->
  snd (run env c db) = db.
Proof.
  destruct c as [n|n a op|n a op|n a op|d cr a]; simpl.
  - rewrite create_account_eq. call_cases; intros H He; try reflexivity;
      try discriminate; injection H as <-; discriminate.
  - rewrite give_eq. call_cases; intros H He; try reflexivity;
      try discriminate; injection H as <-; discriminate.
  - rewrite take_eq. call_cases; intros H He; try reflexivity;
      try discriminate; injection H as <-; discriminate.
  - rewrite set_eq. call_cases; intros H He; try reflexivity;
      try discriminate; injection H as <-; discriminate.
  - rewrite transfer_eq. call_cases; intros H He; try reflexivity;
      try discriminate; injection H as <-; discriminate.
Qed.




(** *** Creating accounts *)

(** For a name without quote and without NUL, [create_account]
    returns and never writes the log; a second creation of the same
    name, at whatever time, changes nothing at all, so the balance and
    the opening time stay those of the first; on an existing account
    the call is a no-op, and a new account starts with balance [0.00]
    and the current time. *)
Theorem create_account_idempotent (env env' : Env) (name : string) (db : DB) :
  plain name = true ->
  let db1 := snd (create_account env name db) in
  fst (create_account env name db) = Ok tt /\
  log db1 = log db /\
  create_account env' name db1 = (Ok tt, db1) /\
  match fst (is_account name db) with
  | Ok true => db1 = db
  | _ => fst (get_balance name db1) = Ok zero_00 /\
         fst (get_open_time name db1) = Ok (now env) /\
         fst (is_account name db1) = Ok true
  end.
Proof.
  intros Hp. cbv zeta. rewrite !create_account_eq, is_account_eq.
  rewrite (literal_plain _ Hp).
  destruct (existsb (has_name name) (data db)) eqn:E; cbn [fst snd].
  - rewrite E. repeat split.
  - cbn [data log]. rewrite existsb_app. simpl existsb.
    unfold has_name at 2. cbn [data_name].
    rewrite String.eqb_refl, orb_true_r. repeat split.
    + rewrite get_balance_eq, lookup_insert, String.eqb_refl. reflexivity.
    + rewrite get_open_time_eq, lookup_insert, String.eqb_refl. reflexivity.
    + rewrite is_account_eq. simpl. rewrite existsb_app. simpl.
      unfold has_name at 2. simpl.
      rewrite String.eqb_refl, orb_true_r. reflexivity.
Qed.

(** C5, where the code goes wrong.  The name is put between the
    quotes of the statement as it is, so a name in which every quote
    is doubled creates the account of another name, the one with
    single quotes: the account asked for still does not exist, and the
    second call, instead of doing nothing, is refused by the key of the
    table. *)
Theorem create_account_twice_raises (env env' : Env) (name name' : string)
    (db : DB) :
  literal name = Some name' ->
  name' <> name ->
  fst (is_account name db) = Ok false ->
  fst (is_account name' db) = Ok false ->
  let db1 := snd (create_account env name db) in
  fst (create_account env name db) = Ok tt /\
  fst (is_account name db1) = Ok false /\
  fst (is_account name' db1) = Ok true /\
  fst (create_account env' name db1) = Raised IntegrityError.
Proof.
  intros Hl Hne H1 H2. cbv zeta.
  rewrite is_account_eq in H1, H2. cbn [fst] in H1, H2.
  injection H1 as H1. injection H2 as H2.
  rewrite !create_account_eq, Hl, H1, H2. cbn [fst snd data].
  rewrite !is_account_eq. cbn [fst data].
  rewrite !existsb_app, H1, H2. simpl existsb.
  unfold has_name. cbn [data_name].
  rewrite String.eqb_refl.
  destruct (String.eqb_spec name' name) as [E|_]; [contradiction|].
  simpl. repeat split.
Qed.

Lemma lookup_same_balance (n : string) (b : Decimal) (db : DB) l a :
  lookup db n = Some a ->
  lookup (mkDB (with_balance n b (data db)) l) n =
  Some (mkAccount (acc_time a) b).
Proof.
  intros H. rewrite lookup_with_balance, String.eqb_refl, H. reflexivity.
Qed.

(** *** Setting a balance *)

(** A decimal that is at least zero and no negative zero is written
    without a minus sign. *)
Lemma ge_zero_unsigned (a : Decimal) :
  a >=d zero = true -> negative_zero a = false -> _sign a = false.
Proof.
  intros Hge Hz. destruct (_sign a) eqn:Es; [|reflexivity]. exfalso.
  unfold negative_zero in Hz. rewrite Es in Hz. simpl in Hz.
  apply N.eqb_neq in Hz.
  unfold __ge__ in Hge. rewrite cmp_zero in Hge. unfold signed in Hge.
  rewrite Es in Hge.
  destruct (Z.compare_spec (- Z.of_N (_int a)) 0); try discriminate; lia.
Qed.

(** C6, as amended.  [set] returns only on an existing account and
    with an amount that is at least zero.  For a name and an operator
    label without quote and without NUL, an existing account and an
    amount at least zero (and no negative zero) such that
    [amount - old balance] has at most 28 significant digits within
    the exponent limits: [set] returns, the balance is exactly the
    amount, and exactly one entry is appended to the log, with the
    operator as debit, the account as credit and an amount whose value
    is [amount - old balance]. *)
Theorem set_sets_and_logs_delta (env : Env) (name : string)
    (amount old : Decimal) (operator : string) (db : DB) :
  (fst (set env name amount operator db) = Ok tt ->
   fst (is_account name db) = Ok true /\ amount >=d zero = true) /\
  (plain name = true ->
   plain operator = true ->
   fst (get_balance name db) = Ok old ->
   amount >=d zero = true ->
   negative_zero amount = false ->
   representable (exact_add amount (copy_negate old)) ->
   set_logs_delta env name amount operator db).
Proof.
  split.
  - rewrite set_eq, is_account_eq, ge_lt. cbn [fst].
    destruct (lookup db name) as [a|] eqn:Ha; [|discriminate].
    rewrite (lookup_some _ _ _ Ha).
    destruct (amount <d zero); [discriminate|]. now split.
  - intros Hn Ho Hb Hge Hz Hr.
    apply get_balance_ok in Hb. destruct Hb as [acc [Hacc <-]].
    destruct (sub_exact _ _ Hr) as [delta [Hd Hv]].
    unfold set_logs_delta. cbv zeta.
    assert (Hs : _sign amount = false)
      by (apply ge_zero_unsigned; assumption).
    rewrite set_eq, Hacc.
    rewrite ge_lt in Hge. destruct (amount <d zero); [discriminate|].
    unfold check_balance. rewrite Hs. cbn [negb].
    rewrite Hd, log_eq, !literal_plain by assumption.
    cbn [fst snd log data]. split; [reflexivity|]. split.
    + rewrite get_balance_eq.
      erewrite (lookup_same_balance name amount db); [reflexivity|exact Hacc].
    + exists (acc_balance acc), delta. repeat split.
      * rewrite get_balance_eq, Hacc. reflexivity.
      * exact Hv.
Qed.

(** C9.  The table itself refuses a negative balance: a direct
    [__set_balance] to a decimal below zero never changes the
    database, and on an existing account, where there is a row to
    write, it raises [IntegrityError]. *)
Theorem storage_rejects_negative_balance (name : string) (balance : Decimal)
    (db : DB) :
  balance <d zero = true ->
  snd (__set_balance name balance db) = db /\
  (fst (is_account name db) = Ok true ->
   fst (__set_balance name balance db) = Raised IntegrityError).
Proof.
  intros Hb. rewrite set_balance_eq, is_account_eq.
  unfold check_balance. rewrite (lt_zero_sign _ Hb). simpl.
  destruct (existsb (has_name name) (data db)); split;
    try reflexivity; discriminate.
Qed.

(** *** What a call leaves alone *)

Lemma lookup_time_with_balance (n n' : string) (b : Decimal) (db : DB) l :
  option_map acc_time (lookup (mkDB (with_balance n b (data db)) l) n') =
  option_map acc_time (lookup db n').
Proof.
  rewrite lookup_with_balance.
  destruct (String.eqb n n'); [|reflexivity].
  destruct (lookup db n'); reflexivity.
Qed.

Lemma get_open_time_map (n : string) (db : DB) :
  fst (get_open_time n db) =
  match option_map acc_time (lookup db n) with
  | Some t => Ok t
  | None => Raised AccountNotExistsError
  end.
Proof.
  rewrite get_open_time_eq. simpl. destruct (lookup db n); reflexivity.
Qed.

Lemma lookup_other_with_balance (n n' : string) (b : Decimal) (db : DB) l :
  n <> n' ->
  lookup (mkDB (with_balance n b (data db)) l) n' = lookup db n'.
Proof.
  intros H. rewrite lookup_with_balance.
  destruct (String.eqb_spec n n'); [contradiction|reflexivity].
Qed.

Ltac nest_rows :=
  try match goal with
  | |- context [with_balance ?c ?x (with_balance ?d ?y (data ?db))] =>
      change (with_balance c x (with_balance d y (data db)))
        with (with_balance c x
                (data (mkDB (with_balance d y (data db)) (log db))))
  end.

Ltac frame_cases :=
  call_cases; nest_rows;
  (split;
   [ repeat rewrite lookup_time_with_balance; reflexivity
   | intros Hn;
     repeat (rewrite lookup_other_with_balance by tauto); reflexivity ]).

Lemma run_frame (env : Env) (c : call) (db : DB) (n : string) (acc : account) :
  lookup db n = Some acc ->
  option_map acc_time (lookup (snd (run env c db)) n) =
  option_map acc_time (lookup db n) /\
  (~ In n (touched c) -> lookup (snd (run env c db)) n = lookup db n).
Proof.
  intros Hacc.
  destruct c as [m|m a op|m a op|m a op|d cr a]; simpl.
  - rewrite create_account_eq. call_cases; try tauto.
    rewrite lookup_insert.
    destruct (String.eqb_spec s n) as [->|Hne]; [|tauto].
    apply lookup_some in Hacc. congruence.
  - rewrite give_eq. frame_cases.
  - rewrite take_eq. frame_cases.
  - rewrite set_eq. frame_cases.
  - rewrite transfer_eq. frame_cases.
Qed.

(** Whatever a call does, short of handing SQLite a crafted text, the
    opening time of every existing account stays what it was, and so
    does the balance of every existing account the call does not
    name. *)
Theorem calls_touch_only_named_balances (env : Env) (c : call) (db : DB)
    (n : string) :
  fst (run env c db) <> Crafted ->
  fst (is_account n db) = Ok true ->
  let db' := snd (run env c db) in
  fst (get_open_time n db') = fst (get_open_time n db) /\
  (~ In n (touched c) -> fst (get_balance n db') = fst (get_balance n db)).
Proof.
  intros _ He. cbv zeta. apply is_account_true in He.
  destruct He as [acc Hacc].
  destruct (run_frame env c db n acc Hacc) as [Ht Hb].
  rewrite !get_open_time_map, !get_balance_eq, Ht. cbn [fst].
  split; [reflexivity|].
  intros Hn. now rewrite (Hb Hn).
Qed.

Lemma gt_false_le (a b : Decimal) : a <=d b = true -> a >d b = false.
Proof. intros H. now rewrite gt_le, H. Qed.

Lemma gt_zero_le (a : Decimal) : a >d zero = true -> a <=d zero = false.
Proof.
  intros H. rewrite gt_le in H. destruct (a <=d zero); [discriminate|].
  reflexivity.
Qed.

(** *** Give and take *)

Section GiveTake.

Variables (env1 env2 : Env) (a operator : string) (X : Decimal) (db : DB).
Variable acc : account.

Hypothesis Hwf : well_formed db.
Hypothesis Hacc : lookup db a = Some acc.
Hypothesis Ha : plain a = true.
Hypothesis Ho : plain operator = true.
Hypothesis HX : X >d zero = true.
Hypothesis Rb : representable (acc_balance acc).
Hypothesis RX : representable X.
Hypothesis Rs : representable (exact_add (acc_balance acc) X).

Let b := acc_balance acc.


End GiveTake.



(** *** Transfer *)

Section Transfer.

Variables (env : Env) (debit credit : string) (amount : Decimal) (db : DB).
Variables da ca : account.

Hypothesis Hwf : well_formed db.
Hypothesis Hd : lookup db debit = Some da.
Hypothesis Hc : lookup db credit = Some ca.
Hypothesis Pd : plain debit = true.
Hypothesis Pc : plain credit = true.
Hypothesis Hne : debit <> credit.
Hypothesis Hpos : amount >d zero = true.
Hypothesis Hle : amount <=d acc_balance da = true.
Hypothesis Rd :
  representable (exact_add (acc_balance da) (copy_negate amount)).
Hypothesis Rc : representable (exact_add (acc_balance ca) amount).



End Transfer.

(** Sums that are equal exactly are equal as Python computes them. *)
Lemma conserved_as_computed (d c d' c' : Decimal) :
  exact_add d' c' ==d exact_add d c = true ->
  same_value (d' +d c') (d +d c).
Proof. apply fix_value. Qed.



(** *** Self-transfer *)

Lemma accounts_names (db : DB) :
  map fst (accounts_by_creation db) = map data_name (data db).
Proof. unfold accounts_by_creation. rewrite map_map. reflexivity. Qed.

(** A transfer from an account to itself that passes validation, with
    a name without quote and without NUL and with differences and sums
    that the context does not round, returns, leaves
    [balance + amount] in the account, and appends the one log entry:
    the second write, computed from the balance read before the first,
    overwrites the first. *)
Theorem self_transfer_adds_amount (env : Env) (a : string)
    (amount b : Decimal) (db : DB) :
  reachable db ->
  plain a = true ->
  fst (get_balance a db) = Ok b ->
  amount >d zero = true ->
  amount <=d b = true ->
  representable (exact_add b (copy_negate amount)) ->
  representable (exact_add b amount) ->
  let db' := snd (transfer env a a amount db) in
  fst (transfer env a a amount db) = Ok tt /\
  (exists b', fst (get_balance a db') = Ok b' /\
              (value b' == value b + value amount)%Q) /\
  log db' = log db ++ [mkLog (uuid4 env) (now env) a a amount].
Proof.
  intros Hr Ha Hb Hpos Hle Rd Rc. cbv zeta.
  apply reachable_well_formed in Hr.
  apply get_balance_ok in Hb. destruct Hb as [acc [Hacc <-]].
  pose proof (well_formed_lookup _ _ _ Hr Hacc) as Hs.
  destruct (gt_zero _ Hpos) as [Hsa _].
  destruct (sub_exact _ _ Rd) as [dn [Hdn _]].
  destruct (add_exact _ _ Rc) as [cn [Hcn Vcn]].
  rewrite transfer_eq, Hacc, (gt_zero_le _ Hpos), (gt_false_le _ _ Hle).
  rewrite Hdn, Hcn. unfold check_balance.
  rewrite (sub_unsigned _ _ _ Hs Hle Hdn), (add_unsigned _ _ _ Hs Hsa Hcn).
  cbn [negb]. rewrite log_eq, !literal_plain by assumption.
  cbn [fst snd log data]. split; [reflexivity|]. split; [|reflexivity].
  exists cn. split; [|exact Vcn].
  nest_rows. rewrite get_balance_eq.
  erewrite lookup_same_balance; [reflexivity|].
  apply lookup_same_balance. exact Hacc.
Qed.

(** *** The log and the table *)

(** The log only grows, and by exactly the entry of the call when a
    call of [give], [take], [set] or [transfer] returns; a call that
    raises, and [create_account], leave it as it was.  (Of a call that
    hands SQLite a crafted text nothing is said.) *)
Theorem log_grows_on_success_only (env : Env) (c : call) (db : DB) :
  fst (run env c db) <> Crafted ->
  log (snd (run env c db)) =
  log db ++ match fst (run env c db) with
            | Ok _ => entry_of env c db
            | _ => []
            end.
Proof.
  destruct c as [n|n a op|n a op|n a op|d cr a]; simpl;
    unfold entry.
  - rewrite create_account_eq. call_cases; intros _;
      now rewrite ?app_nil_r.
  - rewrite give_eq. call_cases; intros H;
      now rewrite ?app_nil_r.
  - rewrite take_eq. call_cases; intros H;
      now rewrite ?app_nil_r.
  - rewrite set_eq, get_balance_eq. call_cases; intros H;
      repeat match goal with
             | E : ?x = _ |- context [match ?x with _ => _ end] => rewrite E
             end;
      now rewrite ?app_nil_r.
  - rewrite transfer_eq. call_cases; intros H;
      now rewrite ?app_nil_r.
Qed.

(** The rows of table [data] stay in the order the accounts were
    created in: a call keeps the names of the table, and
    [create_account] of a new name puts last the name its literal
    denotes, if that is new as well. *)
Theorem table_keeps_creation_order (env : Env) (c : call) (db : DB) :
  fst (run env c db) <> Crafted ->
  map fst (accounts_by_creation (snd (run env c db))) =
  map fst (accounts_by_creation db) ++
  match c with
  | CreateAccount name =>
      if spec_exists db name then []
      else match literal name with
           | Some name' => if spec_exists db name' then [] else [name']
           | None => []
           end
  | _ => []
  end.
Proof.
  rewrite !accounts_names.
  destruct c as [n|n a op|n a op|n a op|d cr a]; simpl.
  - rewrite create_account_eq. unfold spec_exists.
    rewrite is_account_eq. cbn [fst].
    destruct (existsb (has_name n) (data db)); cbn [fst snd].
    + intros _. now rewrite app_nil_r.
    + destruct (literal n) as [n'|]; [|intros H; now elim H].
      rewrite is_account_eq. cbn [fst].
      destruct (existsb (has_name n') (data db)); cbn [fst snd data];
        intros _.
      * now rewrite app_nil_r.
      * now rewrite map_app.
  - rewrite give_eq. call_cases; intros _;
      now rewrite ?with_balance_names, app_nil_r.
  - rewrite take_eq. call_cases; intros _;
      now rewrite ?with_balance_names, app_nil_r.
  - rewrite set_eq. call_cases; intros _;
      now rewrite ?with_balance_names, app_nil_r.
  - rewrite transfer_eq. call_cases; intros _;
      now rewrite ?with_balance_names, app_nil_r.
Qed.

(** *** Calls that meet their preconditions *)


(** *** Ranking *)





End Properties.

(* ================================================================== *)
(** ** The properties on concrete histories                            *)
(* ================================================================== *)

Section Instances.

Lemma db_pair_reachable : reachable db_pair.
Proof. apply reachable_run_all, reachable_empty. Qed.



(** Taking [1000] from ["p1"], which holds [100], is rejected and
    changes nothing. *)
Lemma rejected_call_changes_nothing_witness :
  fst (run env9 (Take "p1" (of_int 1000) Admin) db_pair) =
    Raised InsufficientBalanceError /\
  snd (run env9 (Take "p1" (of_int 1000) Admin) db_pair) = db_pair.
Proof.
  split; [reflexivity|].
  apply (rejected_call_changes_nothing env9 (Take "p1" (of_int 1000) Admin)
           db_pair InsufficientBalanceError); reflexivity.
Defined.


(** The name ["a''b"], every quote of which is doubled, on an empty
    vault: the account created is ["a'b"]. *)
Lemma create_account_twice_raises_witness :
  let db1 := snd (create_account env9 "a''b" empty) in
  fst (create_account env9 "a''b" empty) = Ok tt /\
  fst (is_account "a''b" db1) = Ok false /\
  fst (is_account "a'b" db1) = Ok true /\
  fst (create_account (env_at 10 "id10") "a''b" db1) = Raised IntegrityError.
Proof.
  apply (create_account_twice_raises env9 (env_at 10 "id10") "a''b" "a'b"
           empty).
  - reflexivity.
  - discriminate.
  - reflexivity.
  - reflexivity.
Defined.

(** [set] of ["a"], which holds [30.00], to [0] and to [50]. *)
Lemma set_sets_and_logs_delta_witness :
  set_logs_delta env9 "a" zero Admin db_thirty /\
  set_logs_delta env9 "a" (of_int 50) Admin db_thirty.
Proof.
  split.
  - apply (proj2 (set_sets_and_logs_delta env9 "a" zero
                    (mkDecimal false 3000 (-2)) Admin db_thirty));
      reflexivity.
  - apply (proj2 (set_sets_and_logs_delta env9 "a" (of_int 50)
                    (mkDecimal false 3000 (-2)) Admin db_thirty));
      reflexivity.
Defined.

(** C6, as stated, fails.  [set] of ["p2"], which holds [1E+28], to
    [0.5] logs [-1.000000000000000000000000000E+28]: the difference
    [-9999999999999999999999999999.5] has 29 digits and is rounded to
    28. *)
Lemma set_delta_rounded :
  ~ set_logs_delta env9 "p2" (mkDecimal false 5 (-1)) Admin db_rich.
Proof.
  intros [_ [_ [old [delta [Hold [Hlog Hv]]]]]].
  vm_compute in Hold. injection Hold as <-.
  vm_compute in Hlog. injection Hlog as <-.
  vm_compute in Hv. discriminate.
Qed.

(** The delta that is logged is positive, negative or zero. *)
Example set_50_from_30_logs_20 :
  log (snd (set env9 "a" (of_int 50) Admin db_thirty)) =
  log db_thirty ++ [mkLog "id9" 9 Admin "a" (mkDecimal false 2000 (-2))].
Proof. reflexivity. Qed.

Example set_10_from_30_logs_minus_20 :
  log (snd (set env9 "a" (of_int 10) Admin db_thirty)) =
  log db_thirty ++ [mkLog "id9" 9 Admin "a" (mkDecimal true 2000 (-2))].
Proof. reflexivity. Qed.

Example set_30_from_30_logs_0 :
  log (snd (set env9 "a" (of_int 30) Admin db_thirty)) =
  log db_thirty ++ [mkLog "id9" 9 Admin "a" (mkDecimal false 0 (-2))].
Proof. reflexivity. Qed.



(** ["a"] and ["b"] tie at [10] and keep the order of their creation,
    although ["b"] was written to before ["a"]. *)
Example ranking_a_b_c :
  fst (get_ranking db_rank) =
  Ok [("a", of_int 10); ("b", mkDecimal false 100 (-1)); ("c", of_int 5)].
Proof. reflexivity. Qed.

Lemma storage_rejects_negative_balance_witness :
  snd (__set_balance "a" (of_int (-1)) db_half) = db_half /\
  fst (__set_balance "a" (of_int (-1)) db_half) = Raised IntegrityError.
Proof.
  destruct (storage_rejects_negative_balance "a" (of_int (-1)) db_half
              eq_refl) as [Hdb Hfail].
  split; [exact Hdb|]. apply Hfail. reflexivity.
Defined.

Lemma balance_never_negative_witness :
  mkDecimal false 10000 (-2) >=d zero = true.
Proof.
  apply (balance_never_negative db_pair "p1").
  - exact db_pair_reachable.
  - reflexivity.
Defined.

(** Creating ["p3"] next to ["p1"] and ["p2"], twice. *)
Lemma create_account_idempotent_witness :
  let db1 := snd (create_account env9 "p3" db_pair) in
  fst (create_account env9 "p3" db_pair) = Ok tt /\
  log db1 = log db_pair /\
  create_account (env_at 10 "id10") "p3" db1 = (Ok tt, db1) /\
  fst (get_balance "p3" db1) = Ok zero_00 /\
  fst (get_open_time "p3" db1) = Ok 9 /\
  fst (is_account "p3" db1) = Ok true.
Proof.
  destruct (create_account_idempotent env9 (env_at 10 "id10") "p3" db_pair
              eq_refl) as [H1 [H2 [H3 H4]]].
  cbv zeta. split; [exact H1|]. split; [exact H2|]. split; [exact H3|].
  exact H4.
Defined.

(** Giving [5] to ["p1"] leaves ["p2"] and both opening times alone. *)
Lemma calls_touch_only_named_balances_witness :
  let db' := snd (run env9 (Give "p1" (of_int 5) Admin) db_pair) in
  fst (get_open_time "p2" db') = fst (get_open_time "p2" db_pair) /\
  fst (get_balance "p2" db') = fst (get_balance "p2" db_pair).
Proof.
  destruct (calls_touch_only_named_balances env9 (Give "p1" (of_int 5) Admin)
              db_pair "p2") as [Ht Hb].
  - vm_compute. discriminate.
  - reflexivity.
  - cbv zeta. split; [exact Ht|].
    apply Hb. simpl. intros [H|[]]. discriminate H.
Defined.

(** A transfer of [40] from ["p1"], which holds [100.00], to ["p1"]. *)
Lemma self_transfer_adds_amount_witness :
  fst (transfer env9 "p1" "p1" (of_int 40) db_pair) = Ok tt /\
  (exists b',
     fst (get_balance "p1"
            (snd (transfer env9 "p1" "p1" (of_int 40) db_pair))) = Ok b' /\
     (value b' == value (mkDecimal false 10000 (-2)) + value (of_int 40))%Q) /\
  log (snd (transfer env9 "p1" "p1" (of_int 40) db_pair)) =
    log db_pair ++ [mkLog "id9" 9 "p1" "p1" (of_int 40)].
Proof.
  apply (self_transfer_adds_amount env9 "p1" (of_int 40)
           (mkDecimal false 10000 (-2)) db_pair).
  - exact db_pair_reachable.
  - reflexivity.
  - reflexivity.
  - reflexivity.
  - reflexivity.
  - reflexivity.
  - reflexivity.
Defined.


(** The scenarios of the specification: two accounts, [give(p1, 100)],
    [transfer(p1, p2, 40)]; then [take(p1, 1000)]. *)
Example end_to_end :
  let db := run_all [ (env_at 1 "id1", CreateAccount "p1");
                      (env_at 2 "id2", CreateAccount "p2");
                      (env_at 3 "id3", Give "p1" (of_int 100) Admin);
                      (env_at 4 "id4", Transfer "p1" "p2" (of_int 40)) ]
                    empty in
  fst (get_balance "p1" db) = Ok (mkDecimal false 6000 (-2)) /\
  fst (get_balance "p2" db) = Ok (mkDecimal false 4000 (-2)) /\
  fst (get_logs db) =
    Ok [mkLog "id3" 3 Admin "p1" (of_int 100);
        mkLog "id4" 4 "p1" "p2" (of_int 40)] /\
  take env9 "p1" (of_int 1000) Admin db = (Raised InsufficientBalanceError, db).
Proof. repeat split. Qed.

(** What the two transfers that break conservation leave behind. *)
Example self_transfer_leaves_140 :
  fst (transfer env9 "p1" "p1" (of_int 40) db_pair) = Ok tt /\
  fst (get_balance "p1" db_pair) = Ok (mkDecimal false 10000 (-2)) /\
  fst (get_balance "p1" (snd (transfer env9 "p1" "p1" (of_int 40) db_pair))) =
    Ok (mkDecimal false 14000 (-2)).
Proof. repeat split. Qed.

Example rounded_transfer_loses_5 :
  let db' := snd (transfer env9 "p1" "p2" (of_int 5) db_rich) in
  fst (transfer env9 "p1" "p2" (of_int 5) db_rich) = Ok tt /\
  fst (get_balance "p1" db_rich) = Ok (mkDecimal false 1000 (-2)) /\
  fst (get_balance "p2" db_rich) = Ok dec_1E28 /\
  fst (get_balance "p1" db') = Ok (mkDecimal false 500 (-2)) /\
  fst (get_balance "p2" db') =
    Ok (mkDecimal false 1000000000000000000000000000 1).
Proof. vm_compute. repeat split. Qed.

Example give_take_loses_half :
  let db1 := snd (give env9 "a" dec_1E28 Admin db_half) in
  let db2 := snd (take env9 "a" dec_1E28 Admin db1) in
  fst (give env9 "a" dec_1E28 Admin db_half) = Ok tt /\
  fst (take env9 "a" dec_1E28 Admin db1) = Ok tt /\
  fst (get_balance "a" db_half) = Ok (mkDecimal false 5 (-1)) /\
  fst (get_balance "a" db1) =
    Ok (mkDecimal false 1000000000000000000000000000 1) /\
  fst (get_balance "a" db2) = Ok (mkDecimal false 0 1).
Proof. vm_compute. repeat split. Qed.

(** The exponent limits of the context: a sum beyond [Emax] raises
    [decimal.Overflow], a difference below [Etiny] becomes zero, and a
    negation keeps its sign there. *)
Example sum_beyond_Emax :
  mkDecimal false 9 999999 +d mkDecimal false 9 999999 = None.
Proof. reflexivity. Qed.

Example difference_below_Etiny :
  mkDecimal false 3 (-1000030) -d mkDecimal false 1 (-1000030) =
    Some (mkDecimal false 0 (-1000026)) /\
  __neg__ (mkDecimal false 1 (-1000030)) =
    Some (mkDecimal true 0 (-1000026)).
Proof. split; reflexivity. Qed.

(** A quote that is not doubled, and a NUL, make a crafted text. *)
Example crafted_texts :
  fst (create_account env9 "o'brien" empty) = Crafted /\
  fst (give env9 "p1" (of_int 5) "o'brien" db_pair) = Crafted /\
  literal "x', 7, '_-5') --" = None /\
  literal "a''b" = Some "a'b".
Proof. repeat split. Qed.

End Instances.

(* ================================================================== *)
(** ** Further properties of the API                                   *)
(* ================================================================== *)

Section ReadApi.

(** The reads write nothing, and they agree on which accounts exist:
    where [is_account] says yes, [get_balance] and [get_open_time]
    return what the private getters find; where it says no, the public
    getters raise [AccountNotExistsError] and the private ones
    [KeyError]. *)
Theorem reads_agree (name : string) (db : DB) :
  snd (is_account name db) = db /\
  snd (get_balance name db) = db /\
  snd (get_open_time name db) = db /\
  snd (get_logs db) = db /\
  snd (get_ranking db) = db /\
  match fst (is_account name db) with
  | Ok true =>
      (exists b, fst (get_balance name db) = Ok b /\
                 fst (__get_balance name db) = Ok b) /\
      (exists t, fst (get_open_time name db) = Ok t /\
                 fst (__get_open_time name db) = Ok t)
  | _ =>
      fst (get_balance name db) = Raised AccountNotExistsError /\
      fst (get_open_time name db) = Raised AccountNotExistsError /\
      fst (__get_balance name db) = Raised KeyError /\
      fst (__get_open_time name db) = Raised KeyError
  end.
Proof.
  rewrite is_account_eq, get_balance_eq, get_open_time_eq,
    priv_get_balance_eq, priv_get_open_time_eq.
  cbn [fst snd].
  repeat (split; [reflexivity|]).
  destruct (lookup db name) as [a|] eqn:E.
  - rewrite (lookup_some _ _ _ E). split; eexists; split; reflexivity.
  - apply lookup_none in E. rewrite E. repeat split.
Qed.

End ReadApi.



Section Effects.

Variable env : Env.







(** [set] of ["p"], which holds [1E+999971], to twenty-nine nines at
    that exponent: the balance is written, the difference rounds up
    to [1E+1000000], beyond [Emax], and no entry is logged. *)
Example set_applies_in_part :
  set env "p" dec_nines Admin db_top =
  (Raised Overflow, mkDB [mkData "p" 1 dec_nines] []).
Proof.
  rewrite set_eq.
  change (lookup db_top "p")
    with (Some (mkAccount 1 (mkDecimal false 1 999971))).
  assert (H : dec_nines <d zero = false).
  { pose proof (unsigned_ge_zero dec_nines eq_refl) as H.
    rewrite ge_lt in H. destruct (dec_nines <d zero); [discriminate|].
    reflexivity. }
  rewrite H. reflexivity.
Qed.

End Effects.

Section Histories.

Lemma run_log (env : Env) (c : call) (db : DB) :
  log (snd (run env c db)) =
  log db ++ match fst (run env c db) with
            | Ok _ => entry_of env c db
            | _ => []
            end.
Proof.
  destruct c as [n|n a op|n a op|n a op|d cr a]; simpl;
    unfold entry.
  - rewrite create_account_eq. call_cases; now rewrite ?app_nil_r.
  - rewrite give_eq. call_cases; now rewrite ?app_nil_r.
  - rewrite take_eq. call_cases; now rewrite ?app_nil_r.
  - rewrite set_eq, get_balance_eq. call_cases;
      repeat match goal with
             | E : ?x = _ |- context [match ?x with _ => _ end] => rewrite E
             end;
      now rewrite ?app_nil_r.
  - rewrite transfer_eq. call_cases; now rewrite ?app_nil_r.
Qed.

(** After a history none of whose calls hands SQLite a crafted text,
    the log is the log before, untouched, followed by one entry for
    each call of [give], [take], [set] and [transfer] that returned,
    in the order of the calls. *)
Theorem log_of_history (cs : list (Env * call)) : forall db,
  modelled cs db = true ->
  fst (get_logs (run_all cs db)) = Ok (log db ++ logged cs db).
Proof.
  unfold get_logs, __get_log, select_log. cbn [fst].
  induction cs as [|[env c] cs IH]; intros db Hm; simpl.
  - now rewrite app_nil_r.
  - simpl in Hm.
    assert (Hm' : modelled cs (snd (run env c db)) = true)
      by (destruct (fst (run env c db)); [assumption|assumption|discriminate]).
    rewrite (IH _ Hm'), run_log, <- app_assoc. reflexivity.
Qed.

Lemma run_keeps_account (env : Env) (c : call) (db : DB) (n : string)
    (acc : account) :
  lookup db n = Some acc ->
  exists acc', lookup (snd (run env c db)) n = Some acc' /\
               acc_time acc' = acc_time acc /\
               (~ In n (touched c) -> acc' = acc).
Proof.
  intros Hacc. destruct (run_frame env c db n acc Hacc) as [Ht Hb].
  rewrite Hacc in Ht. simpl in Ht.
  destruct (lookup (snd (run env c db)) n) as [acc'|] eqn:E;
    [|discriminate].
  exists acc'. simpl in Ht. injection Ht as Ht.
  repeat split; [exact Ht|].
  intros Hn. specialize (Hb Hn). congruence.
Qed.

(** An account is for ever: after a history none of whose calls hands
    SQLite a crafted text it still exists, with the opening time it
    had, and with the balance it had if no call of the history named
    it. *)
Theorem accounts_are_permanent (cs : list (Env * call)) : forall db n,
  modelled cs db = true ->
  fst (is_account n db) = Ok true ->
  fst (is_account n (run_all cs db)) = Ok true /\
  fst (get_open_time n (run_all cs db)) = fst (get_open_time n db) /\
  (Forall (fun ec => ~ In n (touched (snd ec))) cs ->
   fst (get_balance n (run_all cs db)) = fst (get_balance n db)).
Proof.
  induction cs as [|[env c] cs IH]; intros db n Hm He; simpl.
  - auto.
  - simpl in Hm.
    assert (Hm' : modelled cs (snd (run env c db)) = true)
      by (destruct (fst (run env c db)); [assumption|assumption|discriminate]).
    destruct (is_account_true _ _ He) as [acc Hacc].
    destruct (run_keeps_account env c db n acc Hacc)
      as [acc' [Hacc' [Ht Hb]]].
    assert (He' : fst (is_account n (snd (run env c db))) = Ok true).
    { rewrite is_account_eq. simpl. now rewrite (lookup_some _ _ _ Hacc'). }
    destruct (IH _ n Hm' He') as [H1 [H2 H3]].
    split; [exact H1|]. split.
    + rewrite H2, !get_open_time_eq, Hacc, Hacc'. simpl. now rewrite Ht.
    + intros Hall. inversion Hall as [|? ? Hc Hcs]; subst. simpl in Hc.
      rewrite (H3 Hcs), !get_balance_eq, Hacc, Hacc'. simpl.
      now rewrite (Hb Hc).
Qed.

End Histories.

(* ================================================================== *)
(** ** The log accounts for the balances                               *)
(* ================================================================== *)

Section Nets.
Local Open Scope Q_scope.

Lemma net_snoc (l : list log_row) (e : log_row) (n : string) :
  net (l ++ [e]) n == net l n + movement n e.
Proof.
  induction l as [|e0 l IH]; simpl.
  - ring.
  - rewrite IH. ring.
Qed.

Lemma net_absent (l : list log_row) (n : string) :
  (forall e, In e l -> log_credit e <> n /\ log_debit e <> n) ->
  net l n == 0.
Proof.
  induction l as [|e0 l IH]; intros H; simpl; [reflexivity|].
  rewrite IH by (intros e He; apply H; now right).
  destruct (H e0 (or_introl eq_refl)) as [Hc Hd].
  unfold movement.
  destruct (String.eqb_spec (log_credit e0) n); [contradiction|].
  destruct (String.eqb_spec (log_debit e0) n); [contradiction|].
  ring.
Qed.

End Nets.

Lemma lookup_named (db : DB) (n : string) (a : account) :
  lookup db n = Some a -> In n (map data_name (data db)).
Proof. intros H. now apply has_name_existsb, (lookup_some db n a). Qed.

Section Audit.
Local Open Scope Q_scope.

Variables L C : list string.
Hypothesis apart : forall x, In x L -> ~ In x C.

Lemma label_not_named (db : DB) (op n : string) (a : account) :
  accounted L C db -> In op L -> lookup db n = Some a ->
  String.eqb op n = false.
Proof.
  intros [J1 _] Hop Hn. apply String.eqb_neq. intros ->.
  apply (apart n Hop), J1. now apply lookup_named in Hn.
Qed.

(** A write to one balance with one entry crediting it by [amount],
    debited to a label. *)
Lemma accounted_entry (db : DB) (n op i : string) (t : Z)
    (b' amount : Decimal) (acc : account) :
  accounted L C db -> In op L -> lookup db n = Some acc ->
  value b' == value (acc_balance acc) + value amount ->
  accounted L C (mkDB (with_balance n b' (data db))
                      (log db ++ [mkLog i t op n amount])).
Proof.
  intros J Hop Hacc Hv. pose proof J as [J1 [J2 J3]].
  split; [|split]; cbn [data log].
  - intros x Hx. rewrite with_balance_names in Hx. now apply J1.
  - intros e He. rewrite with_balance_names.
    apply in_app_or in He. destruct He as [He|[<-|[]]]; [now apply J2|].
    cbn. split; [now apply lookup_named in Hacc|now right].
  - intros x ax Hx. rewrite lookup_with_balance in Hx.
    rewrite net_snoc. unfold movement. cbn [log_credit log_debit log_amount].
    destruct (String.eqb_spec n x) as [->|Hne].
    + rewrite Hacc in Hx. injection Hx as <-. cbn [acc_balance].
      rewrite (label_not_named db op x acc J Hop Hacc).
      rewrite Hv, (J3 _ _ Hacc). ring.
    + rewrite (label_not_named db op x ax J Hop Hx).
      rewrite (J3 _ _ Hx). ring.
Qed.

Lemma accounted_run (env : Env) (c : call) (db : DB) :
  well_formed db -> accounted L C db ->
  incl (operators [(env, c)]) L -> incl (created [(env, c)]) C ->
  plain_call c = true ->
  exact_call c db = true ->
  accounted L C (snd (run env c db)).
Proof.
  intros Hw J HL HC Hp Hx. pose proof J as [J1 [J2 J3]].
  destruct c as [n|n a op|n a op|n a op|d cr a]; simpl in *.
  - rewrite create_account_eq, (literal_plain _ Hp).
    destruct (existsb (has_name n) (data db)) eqn:E; [assumption|].
    cbn [snd].
    assert (Hn : ~ In n (map data_name (data db))).
    { rewrite <- has_name_existsb, E. discriminate. }
    assert (HnC : In n C) by (apply HC; now left).
    split; [|split]; cbn [data log].
    + intros x Hin. rewrite map_app in Hin. apply in_app_or in Hin.
      destruct Hin as [Hin|[<-|[]]]; [now apply J1|assumption].
    + intros e He. rewrite map_app. destruct (J2 e He) as [H1 H2].
      split; [apply in_or_app; now left|].
      destruct H2 as [H2|H2]; [left; apply in_or_app; now left|now right].
    + intros x ax Hl. rewrite lookup_insert in Hl.
      destruct (String.eqb_spec n x) as [->|Hne]; [|now apply J3].
      injection Hl as <-. cbn [acc_balance].
      rewrite net_absent; [reflexivity|].
      intros e He. destruct (J2 e He) as [H1 H2]. split.
      * intros Heq. apply Hn. now rewrite <- Heq.
      * intros Heq. destruct H2 as [H2|H2].
        -- apply Hn. now rewrite <- Heq.
        -- apply (apart x); [now rewrite <- Heq|assumption].
  - apply andb_prop in Hp. destruct Hp as [Pn Po].
    rewrite give_eq. rewrite get_balance_eq in Hx. cbn [fst] in Hx.
    destruct (lookup db n) as [acc|] eqn:Hacc; [|assumption].
    destruct (a <=d zero) eqn:Ea; [assumption|].
    destruct (add_exact _ _ Hx) as [r [Hr Vr]]. rewrite Hr.
    destruct (check_balance r); [|assumption].
    rewrite log_eq, !literal_plain by assumption. cbn [snd data log].
    apply (accounted_entry db n op _ _ _ a acc J); trivial.
    apply HL. now left.
  - apply andb_prop in Hp. destruct Hp as [Pn Po].
    rewrite take_eq. rewrite get_balance_eq in Hx. cbn [fst] in Hx.
    destruct (lookup db n) as [acc|] eqn:Hacc; [|assumption].
    destruct (a <=d zero) eqn:Ea; [assumption|].
    destruct (a >d acc_balance acc); [assumption|].
    apply andb_prop in Hx. destruct Hx as [Hx1 Hx2].
    destruct (sub_exact _ _ Hx1) as [r [Hr Vr]]. rewrite Hr.
    destruct (check_balance r); [|assumption].
    destruct (neg_exact a Hx2 (proj2 (le_zero_false _ Ea))) as [m [Hm Vm]].
    rewrite Hm, log_eq, !literal_plain by assumption. cbn [snd data log].
    apply (accounted_entry db n op _ _ _ m acc J); trivial.
    + apply HL. now left.
    + apply eq_value in Vm. rewrite Vr, Vm, value_negate. ring.
  - apply andb_prop in Hp. destruct Hp as [Pn Po].
    rewrite set_eq. rewrite get_balance_eq in Hx. cbn [fst] in Hx.
    destruct (lookup db n) as [acc|] eqn:Hacc; [|assumption].
    destruct (a <d zero); [assumption|].
    destruct (check_balance a); [|assumption].
    destruct (sub_exact _ _ Hx) as [delta [Hd Vd]]. rewrite Hd.
    rewrite log_eq, !literal_plain by assumption. cbn [snd data log].
    apply (accounted_entry db n op _ _ _ delta acc J); trivial.
    + apply HL. now left.
    + rewrite Vd. ring.
  - apply andb_prop in Hp. destruct Hp as [Pd Pc].
    rewrite transfer_eq. rewrite !get_balance_eq in Hx. cbn [fst] in Hx.
    apply andb_prop in Hx. destruct Hx as [Hdc Hx].
    apply Bool.negb_true_iff in Hdc.
    destruct (lookup db d) as [da|] eqn:Ed; [|assumption].
    destruct (lookup db cr) as [ca|] eqn:Ec; [|assumption].
    destruct (a <=d zero) eqn:Ea; [assumption|].
    destruct (a >d acc_balance da) eqn:Eg; [assumption|].
    apply andb_prop in Hx. destruct Hx as [Hx1 Hx2].
    destruct (sub_exact _ _ Hx1) as [dn [Hdn Vdn]].
    destruct (add_exact _ _ Hx2) as [cn [Hcn Vcn]].
    rewrite Hdn, Hcn. unfold check_balance.
    destruct (le_zero_false _ Ea) as [Hsa _].
    assert (Hle : a <=d acc_balance da = true).
    { rewrite gt_le in Eg. destruct (a <=d acc_balance da);
        [reflexivity|discriminate]. }
    rewrite (sub_unsigned _ _ _ (well_formed_lookup _ _ _ Hw Ed) Hle Hdn).
    rewrite (add_unsigned _ _ _ (well_formed_lookup _ _ _ Hw Ec) Hsa Hcn).
    cbn [negb]. rewrite log_eq, !literal_plain by assumption.
    cbn [snd data log].
    split; [|split]; cbn [data log].
    + intros x Hin. rewrite !with_balance_names in Hin. now apply J1.
    + intros e He. rewrite !with_balance_names.
      apply in_app_or in He. destruct He as [He|[<-|[]]]; [now apply J2|].
      cbn. split; [now apply lookup_named in Ec|].
      left. now apply lookup_named in Ed.
    + intros x ax Hl.
      change (with_balance ?c ?v (with_balance ?d0 ?w (data ?db0)))
        with (with_balance c v
                (data (mkDB (with_balance d0 w (data db0)) (log db0))))
        in Hl.
      rewrite !lookup_with_balance in Hl.
      rewrite net_snoc. unfold movement.
      cbn [log_credit log_debit log_amount].
      destruct (String.eqb_spec cr x) as [->|Hc].
      * rewrite Hdc in *. rewrite Ec in Hl. injection Hl as <-.
        cbn [acc_balance]. rewrite Vcn, (J3 _ _ Ec). ring.
      * destruct (String.eqb_spec d x) as [->|Hd].
        -- rewrite Ed in Hl. injection Hl as <-. cbn [acc_balance].
           rewrite Vdn, (J3 _ _ Ed). ring.
        -- rewrite (J3 _ _ Hl). ring.
Qed.

Lemma accounted_run_all (cs : list (Env * call)) : forall db,
  well_formed db -> accounted L C db ->
  incl (operators cs) L -> incl (created cs) C ->
  exact_history cs db = true ->
  accounted L C (run_all cs db).
Proof.
  induction cs as [|[env c] cs IH]; intros db Hw J HL HC Hx;
    [assumption|].
  cbn [exact_history] in Hx. apply andb_prop in Hx.
  destruct Hx as [Hx Hx2]. apply andb_prop in Hx. destruct Hx as [Hp Hx1].
  cbn [run_all].
  assert (HL1 : incl (operators [(env, c)]) L /\ incl (operators cs) L).
  { destruct c; cbn in *; split; intros x Hin;
      try (apply HL; cbn; tauto); try contradiction;
      destruct Hin as [<-|[]]; apply HL; now left. }
  assert (HC1 : incl (created [(env, c)]) C /\ incl (created cs) C).
  { destruct c; cbn in *; split; intros x Hin;
      try (apply HC; cbn; tauto); try contradiction;
      destruct Hin as [<-|[]]; apply HC; now left. }
  apply IH; try tauto.
  - now apply well_formed_run.
  - apply accounted_run; tauto.
Qed.

End Audit.

Lemma accounted_empty (L C : list string) : accounted L C empty.
Proof.
  split; [|split]; cbn.
  - intros n [].
  - intros e [].
  - intros n acc H. discriminate H.
Qed.

(** The log is a complete account of the balances.  After a history
    from the empty database in which names and labels hold no quote
    and no NUL, no amount is rounded, no account is transferred to
    itself and no operator label is the name of an account, the
    balance of every account is what its log entries add up to: the
    amounts of the entries that credit it less the amounts of the
    entries that debit it. *)
Theorem balance_is_net_of_log (cs : list (Env * call)) (n : string)
    (b : Decimal) :
  exact_history cs empty = true ->
  labels_apart cs = true ->
  fst (get_balance n (run_all cs empty)) = Ok b ->
  (value b == net (log (run_all cs empty)) n)%Q.
Proof.
  intros Hx Hl Hb.
  assert (J : accounted (operators cs) (created cs) (run_all cs empty)).
  { apply accounted_run_all; try apply incl_refl; trivial.
    - intros x Hop Hc. unfold labels_apart in Hl.
      rewrite forallb_forall in Hl. specialize (Hl x Hop).
      apply Bool.negb_true_iff in Hl.
      assert (Ht : existsb (String.eqb x) (created cs) = true).
      { apply existsb_exists. exists x. split; [assumption|].
        apply String.eqb_refl. }
      congruence.
    - exact well_formed_empty.
    - apply accounted_empty. }
  apply get_balance_ok in Hb. destruct Hb as [acc [Hacc <-]].
  destruct J as [_ [_ J3]]. now apply J3.
Qed.


(* ================================================================== *)
(** ** The further properties on concrete histories                    *)
(* ================================================================== *)

Section FurtherInstances.

(** [give] of [5] to ["p1"]. *)
Lemma log_grows_on_success_only_witness :
  log (snd (run env9 (Give "p1" (of_int 5) Admin) db_pair)) =
  log db_pair ++ [mkLog "id9" 9 Admin "p1" (of_int 5)].
Proof.
  apply (log_grows_on_success_only env9 (Give "p1" (of_int 5) Admin) db_pair).
  vm_compute. discriminate.
Defined.

(** Creating ["p3"] next to ["p1"] and ["p2"]. *)
Lemma table_keeps_creation_order_witness :
  map fst (accounts_by_creation
             (snd (run env9 (CreateAccount "p3") db_pair))) =
  map fst (accounts_by_creation db_pair) ++ ["p3"].
Proof.
  apply (table_keeps_creation_order env9 (CreateAccount "p3") db_pair).
  vm_compute. discriminate.
Defined.






(** The log after [history_shop]. *)
Lemma log_of_history_witness :
  fst (get_logs (run_all history_shop empty)) =
  Ok (logged history_shop empty).
Proof.
  apply (log_of_history history_shop empty). reflexivity.
Defined.

(** ["p2"] after a [give] to ["p1"] and a transfer from an account
    that does not exist. *)
Lemma accounts_are_permanent_witness :
  let cs := [ (env9, Give "p1" (of_int 5) Admin);
              (env_at 10 "id10", Transfer "ghost" "p1" (of_int 1)) ] in
  fst (is_account "p2" (run_all cs db_pair)) = Ok true /\
  fst (get_open_time "p2" (run_all cs db_pair)) =
    fst (get_open_time "p2" db_pair).
Proof.
  cbv zeta.
  destruct (accounts_are_permanent
              [ (env9, Give "p1" (of_int 5) Admin);
                (env_at 10 "id10", Transfer "ghost" "p1" (of_int 1)) ]
              db_pair "p2") as [H1 [H2 _]].
  - reflexivity.
  - reflexivity.
  - split; [exact H1|exact H2].
Defined.

(** The balance [75.5] of ["p1"] after [history_shop] is
    [100 - 40 + 15.5]. *)
Lemma balance_is_net_of_log_witness :
  (value (mkDecimal false 755 (-1)) ==
   net (log (run_all history_shop empty)) "p1")%Q.
Proof.
  apply (balance_is_net_of_log history_shop "p1" (mkDecimal false 755 (-1))).
  - reflexivity.
  - reflexivity.
  - reflexivity.
Defined.

End FurtherInstances.
